(** * Gesture-controlled particle tree: the interaction pipeline and the
      formation blending of [src/index.tsx]

    JavaScript numbers are read as real numbers and the arithmetic of
    the source as the exact operations on [R]: rounding (binary64
    arithmetic, and the storage of particle coordinates in a
    [Float32Array]) is left out, so what is proved of positions and
    angles is proved of the update laws, not of the last bits.  The
    finger test is the exception: it compares two computed distances,
    where a rounding can decide the outcome, so its [Math.hypot] and
    its subtraction are left open (class [Binary64]) and the classifier
    is verified for whatever they return.  Everything else follows the
    source:
    flat coordinate arrays indexed by [i*3], [i*3+1], [i*3+2], the
    guards of [predict], the [try]/[catch] around the inference step,
    and the mutable cells ([curF], the pivot's yaw) as explicit state. *)

From Stdlib Require Import Reals Lra Lia ZArith.
From stdpp Require Import base option list strings.

#[local] Open Scope R_scope.

(** ** Configuration *)

Definition EXPLOSION_SPEED : R := 0.20.
Definition RETURN_SPEED : R := 0.12.

#[local] Instance Rgt_decision (a b : R) : Decision (a > b) := Rgt_dec a b.

(** [a > b] of the source, as a boolean. *)
Definition Rgtb (a b : R) : bool := if Rgt_dec a b then true else false.

(** ** Gesture classifier *)

(** A hand landmark [{x, y, z}]; the fields carry a prefix because [x]
    and [y] are wanted as variable names. *)
Record Landmark : Type := mkLandmark { lx : R; ly : R; lz : R }.

(** [Math.hypot] on two arguments, in exact arithmetic. *)
Definition hypot (a b : R) : R := sqrt (a * a + b * b).

(** The arithmetic of the finger test as the machine carries it out.
    [Math.hypot] returns an implementation-defined approximation of the
    root of the sum of squares, and a subtraction of two numbers its
    binary64 rounding: both are left open here, so that what is proved
    of the classifier holds of whatever they return.  The comparison of
    two numbers is exact. *)
Class Binary64 : Type := {
  Math_hypot : R -> R -> R;
  subtract : R -> R -> R
}.

(** The same two operations without any rounding. *)
#[global] Instance exact : Binary64 :=
  {| Math_hypot := hypot; subtract := Rminus |}.

(** Line 22. *)
Definition getDistance {M : Binary64} (p1 p2 : Landmark) : R :=
  Math_hypot (subtract (lx p1) (lx p2)) (subtract (ly p1) (ly p2)).

(** Reading [landmarks[i]] past the end gives [undefined], and the
    property access [.x] on it throws a [TypeError]: [None] stands for
    that exception. *)
Definition isFingerExtended {M : Binary64} (landmarks : list Landmark) (tipIdx pipIdx : nat)
  : option bool :=
  wrist ← landmarks !! 0%nat;
  tip ← landmarks !! tipIdx;
  pip ← landmarks !! pipIdx;
  Some (Rgtb (getDistance wrist tip) (getDistance wrist pip)).

(** Line 88: the yaw the wrist's horizontal position asks for. *)
Definition rotationHint (wristX : R) : R := (0.5 - wristX) * 5.

(** ** Interaction state and the prediction loop *)

(** The state held by [App]: [{ factor, rotation }], rotation [null]
    being [None]. *)
Record InteractionState : Type :=
  mkInteraction { factor : R; rotation : option R }.

Definition initialInteraction : InteractionState :=
  {| factor := 0; rotation := None |}.

(** What one run of the [try] block hands to [onUpdateInteraction]. *)
Inductive Publication : Type :=
| Publish (s : InteractionState)
| NoPublish.

Definition Boolean (b : bool) : bool := b.

(** Lines 82-89: the branch taken when a hand was detected.  [None] is a
    thrown exception. *)
Definition handBranch {M : Binary64} (hand : list Landmark) : option Publication :=
  index ← isFingerExtended hand 8 6;
  middle ← isFingerExtended hand 12 10;
  ring ← isFingerExtended hand 16 14;
  pinky ← isFingerExtended hand 20 18;
  let extendedFingers :=
    length (List.filter Boolean [index; middle; ring; pinky]) in
  thumb ← isFingerExtended hand 4 2;
  let totalExtended := (extendedFingers + (if thumb : bool then 1 else 0))%nat in
  let targetFactor : R := if (4 <=? totalExtended)%nat then 1 else 0 in
  wrist ← hand !! 0%nat;
  let rotation := rotationHint (lx wrist) in
  Some (Publish {| factor := targetFactor; rotation := Some rotation |}).

(** The outcome of [landmarkerRef.current.detectForVideo] on the current
    video frame: it throws, or returns a result whose [landmarks] array
    (always an array, hence truthy) holds one list of points per
    detected hand. *)
Inductive Detection : Type :=
| Throws
| Result (landmarks : list (list Landmark)).

Record Video : Type :=
  mkVideo { readyState : Z; videoWidth : Z; videoHeight : Z }.

(** The overlay canvas; [getContext] tells whether [getContext('2d')]
    returns a context rather than [null]. *)
Record Canvas : Type := mkCanvas { getContext : bool }.

(** What [predict] finds in its refs when it runs; the landmarker is
    given by what its [detectForVideo] does on this cycle's frame. *)
Record Refs : Type := mkRefs {
  videoRef : option Video;
  landmarkerRef : option Detection;
  canvasRef : option Canvas
}.

(** Lines 75-94: the body of the [try].  [None] is an exception reaching
    the [catch]. *)
Definition tryBlock {M : Binary64} (canvas : Canvas) (detect : Detection)
  : option Publication :=
  match detect with
  | Throws => None
  | Result landmarks =>
      let ctx := getContext canvas in
      if ctx && (0 <? length landmarks)%nat then
        hand ← landmarks !! 0%nat;
        handBranch hand
      else if ctx then
        Some (Publish {| factor := 0; rotation := None |})
      else Some NoPublish
  end.

(** The effect of one call of [predict]: what it published, if anything,
    and whether it asked for the next animation frame. *)
Record PredictOutcome : Type := mkOutcome {
  published : Publication;
  nextFrameRequested : bool
}.

Definition predict {M : Binary64} (refs : Refs) : PredictOutcome :=
  let pub :=
    match videoRef refs, landmarkerRef refs, canvasRef refs with
    | Some video, Some detect, Some canvas =>
        if (2 <=? readyState video)%Z then
          if (0 <? videoWidth video)%Z && (0 <? videoHeight video)%Z then
            match tryBlock canvas detect with
            | Some p => p
            | None => NoPublish              (* catch (err) {} *)
            end
          else NoPublish
        else NoPublish
    | _, _, _ => NoPublish
    end in
  {| published := pub; nextFrameRequested := true |}.

(** [onUpdateInteraction] is [setInteractionState({ factor, rotation })]:
    a publication replaces the whole state, no publication leaves it. *)
Definition applyPublication (st : InteractionState) (p : Publication)
  : InteractionState :=
  match p with
  | Publish s => s
  | NoPublish => st
  end.

(** The interaction state after one inference cycle. *)
Definition cycle {M : Binary64} (st : InteractionState) (refs : Refs) : InteractionState :=
  applyPublication st (published (predict refs)).

(** The interaction state after a run of inference cycles. *)
Definition cycles {M : Binary64} (st : InteractionState) (run : list Refs) : InteractionState :=
  fold_left cycle run st.

(** ** Formation interpolator: the particle cloud *)

(** The three coordinate buffers of [TreeParticles], flat: entity [i]
    owns the cells [i*3], [i*3+1] and [i*3+2]. *)
Record TreeParticles : Type := mkParticles {
  initialPositions : list R;
  explodedPositions : list R;
  currentPositions : list R
}.

(** A typed-array read [a[i]].  Past the end JavaScript yields
    [undefined]; the buffers of one system have the same length
    ([wellFormed] below), so no such read feeds a stored value and the
    default is never seen. *)
Definition idx (a : list R) (i : nat) : R := nth i a 0.

(** [targetFactor > 0.1 ? EXPLOSION_SPEED : RETURN_SPEED] *)
Definition speed (targetFactor : R) : R :=
  if Rgt_dec targetFactor 0.1 then EXPLOSION_SPEED else RETURN_SPEED.

(** Lines 166-170: the body of the loop for entity [i].  A typed-array
    write past the end is dropped, as stdpp's list insert does. *)
Definition moveParticle (init exp : list R) (targetFactor sp : R)
    (cur : list R) (i : nat) : list R :=
  let ix := (i * 3)%nat in
  let iy := (i * 3 + 1)%nat in
  let iz := (i * 3 + 2)%nat in
  let tx := idx init ix + (idx exp ix - idx init ix) * targetFactor in
  let ty := idx init iy + (idx exp iy - idx init iy) * targetFactor in
  let tz := idx init iz + (idx exp iz - idx init iz) * targetFactor in
  let cur := <[ix := idx cur ix + (tx - idx cur ix) * sp]> cur in
  let cur := <[iy := idx cur iy + (ty - idx cur iy) * sp]> cur in
  <[iz := idx cur iz + (tz - idx cur iz) * sp]> cur.

(** How many [i = 0, 1, ...] satisfy [i < len / 3], the division being
    that of numbers, not of integers. *)
Definition iterations (len : nat) : nat := ((len + 2) / 3)%nat.

(** Lines 162-173; [meshRef] tells whether [meshRef.current] is set. *)
Definition TreeParticles_useFrame (meshRef : bool) (targetFactor : R)
    (p : TreeParticles) : TreeParticles :=
  if meshRef then
    let sp := speed targetFactor in
    {| initialPositions := initialPositions p;
       explodedPositions := explodedPositions p;
       currentPositions :=
         fold_left
           (moveParticle (initialPositions p) (explodedPositions p)
                         targetFactor sp)
           (seq 0 (iterations (length (currentPositions p))))
           (currentPositions p) |}
  else p.

(** The particle cloud after the render frames that saw the factors
    [fs], oldest first, with the mesh mounted. *)
Definition particleFrames (fs : list R) (p : TreeParticles) : TreeParticles :=
  fold_left (fun q f => TreeParticles_useFrame true f q) fs p.

(** The buffers as [useMemo] builds them: equal lengths. *)
Definition wellFormed (p : TreeParticles) : Prop :=
  length (initialPositions p) = length (currentPositions p) /\
  length (explodedPositions p) = length (currentPositions p).

(** ** Formation interpolator: the decorative objects *)

Record Vector3 : Type := mkVector3 { vx : R; vy : R; vz : R }.

(** three.js's [Vector3.lerpVectors(v1, v2, alpha)]. *)
Definition lerpVectors (v1 v2 : Vector3) (alpha : R) : Vector3 :=
  {| vx := vx v1 + (vx v2 - vx v1) * alpha;
     vy := vy v1 + (vy v2 - vy v1) * alpha;
     vz := vz v1 + (vz v2 - vz v1) * alpha |}.

Record Item : Type := mkItem { startPos : Vector3; endPos : Vector3 }.

(** [items] is fixed by [useMemo]; [curF] is the ref cell; [children]
    are the positions of [groupRef.current.children]. *)
Record ComplexDecorationSystem : Type := mkDecorations {
  items : list Item;
  curF : R;
  children : list Vector3
}.

(** Lines 208-211, positions only: child number [i] is placed from
    [items[i]]; a child without an item makes [it.startPos] throw
    ([None]). *)
Fixpoint forEachChild (its : list Item) (f : R) (i : nat)
    (cs : list Vector3) : option (list Vector3) :=
  match cs with
  | [] => Some []
  | _ :: rest =>
      it ← its !! i;
      rest' ← forEachChild its f (S i) rest;
      Some (lerpVectors (startPos it) (endPos it) f :: rest')
  end.

(** Lines 205-212; [groupRef] tells whether [groupRef.current] is set. *)
Definition ComplexDecorationSystem_useFrame (groupRef : bool)
    (targetFactor : R) (d : ComplexDecorationSystem)
  : option ComplexDecorationSystem :=
  if groupRef then
    let f := curF d + (targetFactor - curF d)
                      * (if Rgt_dec targetFactor 0.1
                         then EXPLOSION_SPEED else RETURN_SPEED) in
    cs ← forEachChild (items d) f 0 (children d);
    Some {| items := items d; curF := f; children := cs |}
  else Some d.

Fixpoint decorationFrames (fs : list R) (d : ComplexDecorationSystem)
  : option ComplexDecorationSystem :=
  match fs with
  | [] => Some d
  | f :: rest =>
      d' ← ComplexDecorationSystem_useFrame true f d;
      decorationFrames rest d'
  end.

(** ** Scene composition *)

(** three.js's [MathUtils.lerp(x, y, t)]. *)
Definition lerp (x y t : R) : R := (1 - t) * x + t * y.

(** Lines 234-238 on [groupRef.current.rotation.y]. *)
Definition Scene_useFrame (groupRef : bool) (treeRotation : option R)
    (delta : R) (rotation_y : R) : R :=
  if groupRef then
    match treeRotation with
    | Some r => lerp rotation_y r 0.1
    | None => rotation_y + delta * 0.2
    end
  else rotation_y.

(** Line 241: [enableRotate={treeRotation === null}]. *)
Definition enableRotate (treeRotation : option R) : bool :=
  match treeRotation with
  | None => true
  | Some _ => false
  end.

(** ** Vocabulary of the statements *)

(** The point held by entity [i] of a flat buffer. *)
Definition entity (a : list R) (i : nat) : Vector3 :=
  {| vx := idx a (i * 3); vy := idx a (i * 3 + 1); vz := idx a (i * 3 + 2) |}.

(** The landmark at position [i] of a hand of 21 points. *)
Definition point (hand : list Landmark) (i : nat) : Landmark :=
  nth i hand {| lx := 0; ly := 0; lz := 0 |}.

(** The (tip, proximal joint) pairs of the five fingers. *)
Definition fingers : list (nat * nat) :=
  [(8, 6); (12, 10); (16, 14); (20, 18); (4, 2)]%nat.

(** The finger-extended test in the words of the specification: the tip
    is farther from the wrist than the proximal joint. *)
Definition fingerExtended {M : Binary64} (hand : list Landmark) (finger : nat * nat) : Prop :=
  getDistance (point hand 0) (point hand finger.1)
  > getDistance (point hand 0) (point hand finger.2).

#[local] Instance fingerExtended_dec {M : Binary64} hand finger :
  Decision (fingerExtended hand finger) := Rgt_dec _ _.

(** How many of the five tests pass. *)
Definition extendedCount {M : Binary64} (hand : list Landmark) : nat :=
  length (filter (fingerExtended hand) fingers).

(** An inference cycle in which [predict] reaches the detector and gets
    [landmarks] back: the refs are set, the video has a frame of nonzero
    size, [detectForVideo] returns, and the overlay canvas yields its 2D
    context (it is only ever asked for that one). *)
Definition detects (refs : Refs) (landmarks : list (list Landmark)) : Prop :=
  exists video canvas,
    videoRef refs = Some video /\
    canvasRef refs = Some canvas /\
    landmarkerRef refs = Some (Result landmarks) /\
    (2 <= readyState video)%Z /\
    (0 < videoWidth video)%Z /\
    (0 < videoHeight video)%Z /\
    getContext canvas = true.

(** A cycle is completed when it runs through to its publication. *)
Definition completed {M : Binary64} (refs : Refs) : Prop :=
  published (predict refs) <> NoPublish.

#[local] Instance completed_dec {M : Binary64} refs : Decision (completed refs).
Proof.
  unfold completed. destruct (published (predict refs)).
  - left; discriminate.
  - right; intros H; apply H; reflexivity.
Defined.

(** The hands the detector returned in a cycle (none if it did not
    return). *)
Definition detectedHands (refs : Refs) : list (list Landmark) :=
  match landmarkerRef refs with
  | Some (Result landmarks) => landmarks
  | _ => []
  end.

(** The last completed cycle of a run. *)
Definition lastCompleted {M : Binary64} (run : list Refs) : option Refs :=
  last (filter completed run).

(** A concrete hand for the examples: wrist at [(wx, 0)], the joints at
    distance 1 from it and the four non-thumb tips at distance [tips],
    the thumb tip at distance [thumb]. *)
Definition sampleHand (wx tips thumb : R) : list Landmark :=
  let at_ d := {| lx := wx + d; ly := 0; lz := 0 |} in
  [ at_ 0; at_ 1; at_ 1; at_ 1; at_ thumb;
    at_ 1; at_ 1; at_ 1; at_ tips;
    at_ 1; at_ 1; at_ 1; at_ tips;
    at_ 1; at_ 1; at_ 1; at_ tips;
    at_ 1; at_ 1; at_ 1; at_ tips ].

Definition readyRefs (d : Detection) : Refs :=
  {| videoRef := Some {| readyState := 4; videoWidth := 640; videoHeight := 480 |};
     landmarkerRef := Some d;
     canvasRef := Some {| getContext := true |} |}.

(** The value the loop body leaves in cell [k]: the cell moved towards
    its blend target by the fraction [sp] of what separates them. *)
Definition movedCell (init exp : list R) (targetFactor sp : R)
    (cur : list R) (k : nat) : R :=
  let target := idx init k + (idx exp k - idx init k) * targetFactor in
  idx cur k + (target - idx cur k) * sp.

(** The cloud as [useMemo] first builds it: [currentPositions] is a copy
    of [initialPositions]. *)
Definition atRest (init exp : list R) : TreeParticles :=
  {| initialPositions := init; explodedPositions := exp;
     currentPositions := init |}.

(** The decorations as first rendered: [curF] is 0 and every child
    group sits at the origin of its parent. *)
Definition decorationsOf (its : list Item) : ComplexDecorationSystem :=
  {| items := its; curF := 0;
     children := map (fun _ => {| vx := 0; vy := 0; vz := 0 |}) its |}.

(** The pivot's yaw after the render frames [frames], oldest first, each
    given as the published rotation it saw and its time step. *)
Definition sceneFrames (frames : list (option R * R)) (rotation_y : R) : R :=
  fold_left (fun y fr => Scene_useFrame true fr.1 fr.2 y) frames rotation_y.

(** An inference cycle whose [try] block throws: [predict] reaches the
    block and an exception leaves it. *)
Definition inferenceThrows {M : Binary64} (refs : Refs) : Prop :=
  exists video canvas detect,
    videoRef refs = Some video /\
    canvasRef refs = Some canvas /\
    landmarkerRef refs = Some detect /\
    (2 <= readyState video)%Z /\
    (0 < videoWidth video)%Z /\
    (0 < videoHeight video)%Z /\
    tryBlock canvas detect = None.

(** An interaction state published by an open palm, for the examples. *)
Definition palmState : InteractionState :=
  {| factor := 1; rotation := Some 0.5 |}.

(** ** The rest of the source *)

Definition TREE_HEIGHT : R := 16.
Definition TREE_RADIUS : R := 7.

(** Line 21; [random] is the value [Math.random()] returns in the call,
    a number of [[0, 1)]. *)
Definition randomRange (random min max : R) : R := random * (max - min) + min.

(** The topper's group: its height and its yaw. *)
Record TopStar : Type := mkTopStar { position_y : R; star_rotation_y : R }.

(** Lines 218-222; [ref] tells whether [ref.current] is set and
    [elapsedTime] is [state.clock.elapsedTime]. *)
Definition TopStar_useFrame (ref : bool) (targetFactor elapsedTime : R)
    (s : TopStar) : TopStar :=
  if ref then
    let targetY := (TREE_HEIGHT / 2) + 0.5 + (targetFactor * 10)
                   + sin (elapsedTime * 2) * 0.2 in
    {| position_y := position_y s + (targetY - position_y s) * 0.1;
       star_rotation_y := elapsedTime * 0.5 |}
  else s.

(** The topper after the render frames [frames], oldest first, each given
    as the factor it saw and the clock's elapsed time. *)
Definition starFrames (frames : list (R * R)) (s : TopStar) : TopStar :=
  fold_left (fun q fr => TopStar_useFrame true fr.1 fr.2 q) frames s.

(** The sum of a list of time steps. *)
Definition total (deltas : list R) : R := fold_right Rplus 0 deltas.

(** ** The overlay and the gesture label *)

(** The calls [drawSkeleton] makes on the 2D context, in order. *)
Inductive CanvasOp : Type :=
| clearRect (x y w h : R)
| lineWidth (w : R)
| strokeStyle (c : string)
| fillStyle (c : string)
| beginPath
| moveTo (x y : R)
| lineTo (x y : R)
| stroke
| arc (x y r startAngle endAngle : R)
| fill.

(** Line 56. *)
Definition connections : list (list nat) :=
  [[0; 1; 2; 3; 4]; [0; 5; 6; 7; 8]; [0; 9; 10; 11; 12];
   [0; 13; 14; 15; 16]; [0; 17; 18; 19; 20]]%nat.

(** Lines 59-62: [row.forEach((idx, i) => ...)] from position [i] on;
    [landmarks[idx]] past the end makes [.x] throw ([None]). *)
Fixpoint forEachIdx (landmarks : list Landmark) (width height : R) (i : nat)
    (row : list nat) : option (list CanvasOp) :=
  match row with
  | [] => Some []
  | idx :: rest =>
      p ← landmarks !! idx;
      let x := (1 - lx p) * width in
      let y := ly p * height in
      ops ← forEachIdx landmarks width height (S i) rest;
      Some ((if (i =? 0)%nat then moveTo x y else lineTo x y) :: ops)
  end.

(** Lines 58-63, one row of [connections]. *)
Definition drawRow (landmarks : list Landmark) (width height : R)
    (row : list nat) : option (list CanvasOp) :=
  ops ← forEachIdx landmarks width height 0 row;
  Some (beginPath :: ops ++ [stroke]).

(** Lines 66-67, one landmark. *)
Definition drawDot (width height : R) (p : Landmark) : list CanvasOp :=
  let x := (1 - lx p) * width in
  let y := ly p * height in
  [beginPath; arc x y 3 0 (2 * PI); fill].

(** Lines 53-69. *)
Definition drawSkeleton (landmarks : list Landmark) (width height : R)
    (isOpen : bool) : option (list CanvasOp) :=
  let colour := if isOpen then "#34d399" else "#f87171" in
  rows ← mapM (drawRow landmarks width height) connections;
  Some ([clearRect 0 0 width height; lineWidth 2;
         strokeStyle colour; fillStyle colour]
        ++ concat rows ++ concat (drawDot width height <$> landmarks)).

(** The point a drawing call is made at, if it has one. *)
Definition opPoint (op : CanvasOp) : option (R * R) :=
  match op with
  | moveTo x y | lineTo x y | arc x y _ _ _ => Some (x, y)
  | _ => None
  end.

(** The call draws at a point of the canvas, if it draws at a point. *)
Definition insideCanvas (width height : R) (op : CanvasOp) : Prop :=
  match opPoint op with
  | Some (x, y) => 0 <= x <= width /\ 0 <= y <= height
  | None => True
  end.

(** A landmark with normalised image coordinates. *)
Definition normalised (p : Landmark) : Prop :=
  0 <= lx p <= 1 /\ 0 <= ly p <= 1.

(** Lines 83-84: the number of extended fingers, thumb included. *)
Definition totalExtended {M : Binary64} (hand : list Landmark) : option nat :=
  index ← isFingerExtended hand 8 6;
  middle ← isFingerExtended hand 12 10;
  ring ← isFingerExtended hand 16 14;
  pinky ← isFingerExtended hand 20 18;
  let extendedFingers :=
    length (List.filter Boolean [index; middle; ring; pinky]) in
  thumb ← isFingerExtended hand 4 2;
  Some (extendedFingers + (if thumb : bool then 1 else 0))%nat.

(** Lines 75-94 again, this time for the text handed to
    [setGestureText]: [None] is an exception reaching the [catch],
    [Some None] a run that sets no text. *)
Definition tryBlockText {M : Binary64} (canvas : Canvas) (detect : Detection)
  : option (option string) :=
  match detect with
  | Throws => None
  | Result landmarks =>
      let ctx := getContext canvas in
      if ctx && (0 <? length landmarks)%nat then
        hand ← landmarks !! 0%nat;
        total ← totalExtended hand;
        let text := if (4 <=? total)%nat
                    then "Open Palm (Explode)" else "Fist (Rotate)" in
        _ ← hand !! 0%nat;
        Some (Some text)
      else if ctx then Some (Some "No Hand Detected")
      else Some None
  end.

(** The text [predict] sets in a cycle, if it sets one. *)
Definition predictText {M : Binary64} (refs : Refs) : option string :=
  match videoRef refs, landmarkerRef refs, canvasRef refs with
  | Some video, Some detect, Some canvas =>
      if (2 <=? readyState video)%Z then
        if (0 <? videoWidth video)%Z && (0 <? videoHeight video)%Z then
          match tryBlockText canvas detect with
          | Some t => t
          | None => None
          end
        else None
      else None
  | _, _, _ => None
  end.

(** What the page shows of the interaction: the state [App] holds and
    the label [HandTracker] holds. *)
Record Display : Type := mkDisplay {
  interaction : InteractionState;
  gestureText : string
}.

Definition initialDisplay : Display :=
  {| interaction := initialInteraction; gestureText := "Waiting..." |}.

Definition displayCycle {M : Binary64} (d : Display) (refs : Refs) : Display :=
  {| interaction := cycle (interaction d) refs;
     gestureText := match predictText refs with
                    | Some t => t
                    | None => gestureText d
                    end |}.

Definition displayCycles {M : Binary64} (d : Display) (run : list Refs) : Display :=
  fold_left displayCycle run d.

(** [s.includes(sub)]. *)
Fixpoint includes (s sub : string) : bool :=
  String.prefix sub s ||
  match s with
  | EmptyString => false
  | String _ s' => includes s' sub
  end.

(** Line 126: the class of the indicator dot. *)
Definition indicator (gestureText : string) : string :=
  if includes gestureText "Open" then "bg-emerald-400" else "bg-red-400".

(** The label and the state a cycle leaves are one of four pairs. *)
Definition displayed (d : Display) : Prop :=
  (gestureText d = "Waiting..." /\ interaction d = initialInteraction) \/
  (gestureText d = "No Hand Detected"
   /\ interaction d = {| factor := 0; rotation := None |}) \/
  (gestureText d = "Open Palm (Explode)"
   /\ factor (interaction d) = 1 /\ rotation (interaction d) <> None) \/
  (gestureText d = "Fist (Rotate)"
   /\ factor (interaction d) = 0 /\ rotation (interaction d) <> None).

(** ** Building the formations *)

Definition COUNT_LEAVES : nat := 12000.
Definition COUNT_RIBBON : nat := 1200.
Definition DECO_COUNT : nat := 180.
Definition SPIRALS : R := 12.
Definition LEAF_COLORS : list string :=
  ["#022c22"; "#14532d"; "#166534"; "#15803d"; "#064e3b"; "#065f46"].
Definition RIBBON_COLOR_HEX : string := "#ffffff".

(** [Math.pow(base, exponent)] for a base that is not negative and a
    positive exponent. *)
Definition Math_pow (base exponent : R) : R :=
  if Req_dec_T base 0 then 0 else Rpower base exponent.

(** [Math.floor], as an index. *)
Definition Math_floor (x : R) : nat := Z.to_nat (Zfloor x).

(** [a[idx*3] = x; a[idx*3+1] = y; a[idx*3+2] = z]. *)
Definition write3 (a : list R) (idx : nat) (x y z : R) : list R :=
  <[(idx * 3 + 2)%nat := z]> (<[(idx * 3 + 1)%nat := y]> (<[(idx * 3)%nat := x]> a)).

(** The state of the [useMemo] of [TreeParticles] while it runs: the
    four buffers, the entity counter [idx], and how many times
    [Math.random] has been called. *)
Record Build : Type := mkBuild {
  posInit : list R;
  posExp : list R;
  col : list R;
  siz : list R;
  idx_ : nat;
  calls : nat
}.

Section Construction.
(** [random n] is what the call number [n] of [Math.random] returns;
    [Color] is three.js's [new THREE.Color(hex)], as its components
    [(r, g, b)], [None] being [undefined]. *)
Variable random : nat -> R.
Variable Color : option string -> R * R * R.

(** Lines 144-150: one leaf. *)
Definition leaf (b : Build) : Build :=
  let n := calls b in
  let idx := idx_ b in
  let y := random n * TREE_HEIGHT in
  let radiusAtY := TREE_RADIUS * (1 - y / TREE_HEIGHT) in
  let r := Math_pow (random (n + 1)) 0.3 * radiusAtY in
  let theta := random (n + 2) * PI * 2 in
  let expR := randomRange (random (n + 3)) 20 50 in
  let expTheta := random (n + 4) * PI * 2 in
  let expPhi := acos (2 * random (n + 5) - 1) in
  let c := Color (LEAF_COLORS
                  !! Math_floor (random (n + 6) * INR (length LEAF_COLORS))) in
  {| posInit := write3 (posInit b) idx
                  (r * cos theta) (y - TREE_HEIGHT / 2) (r * sin theta);
     posExp := write3 (posExp b) idx
                 (expR * sin expPhi * cos expTheta)
                 (expR * sin expPhi * sin expTheta)
                 (expR * cos expPhi);
     col := write3 (col b) idx c.1.1 c.1.2 c.2;
     siz := <[idx := randomRange (random (n + 7)) 0.25 0.45]> (siz b);
     idx_ := S idx;
     calls := n + 8 |}.

(** Lines 154-157: the ribbon point number [i]. *)
Definition ribbon (b : Build) (i : nat) : Build :=
  let n := calls b in
  let idx := idx_ b in
  let ribbonColor := Color (Some RIBBON_COLOR_HEX) in
  let t := INR i / INR COUNT_RIBBON in
  let y := t * TREE_HEIGHT in
  let radiusAtY := (TREE_RADIUS * (1 - y / TREE_HEIGHT)) + 0.3 in
  let theta := t * PI * 2 * SPIRALS in
  let expR := randomRange (random n) 25 45 in
  {| posInit := write3 (posInit b) idx
                  (radiusAtY * cos theta) (y - TREE_HEIGHT / 2)
                  (radiusAtY * sin theta);
     posExp := write3 (posExp b) idx
                 (expR * cos theta) ((t - 0.5) * 5) (expR * sin theta);
     col := write3 (col b) idx
              (ribbonColor.1.1 * 3) (ribbonColor.1.2 * 3) (ribbonColor.2 * 3);
     siz := <[idx := 0.5]> (siz b);
     idx_ := S idx;
     calls := n + 1 |}.

(** Lines 139-160, for [leaves] leaves and [ribbons] ribbon points. *)
Definition buildWith (leaves ribbons : nat) : Build :=
  let total := (leaves + ribbons)%nat in
  let b0 := {| posInit := replicate (total * 3) 0;
               posExp := replicate (total * 3) 0;
               col := replicate (total * 3) 0;
               siz := replicate total 0;
               idx_ := 0; calls := 0 |} in
  let b1 := fold_left (fun b _ => leaf b) (seq 0 leaves) b0 in
  fold_left ribbon (seq 0 ribbons) b1.

(** Lines 139-161: the cloud [TreeParticles] starts from, its current
    buffer a copy of the initial one. *)
Definition builtParticles : TreeParticles :=
  let b := buildWith COUNT_LEAVES COUNT_RIBBON in
  {| initialPositions := posInit b;
     explodedPositions := posExp b;
     currentPositions := posInit b |}.

(** The sizes buffer of the cloud. *)
Definition builtSizes : list R := siz (buildWith COUNT_LEAVES COUNT_RIBBON).
End Construction.

(** A rest position of the cloud: within 7.3 of the tree's axis and
    within 8 of its mid height. *)
Definition inTree (v : Vector3) : Prop :=
  vx v * vx v + vz v * vz v <= 7.3 * 7.3 /\ -8 <= vy v <= 8.

(** The same two regions with a margin, wide enough for coordinates
    that were rounded to binary32 when stored. *)
Definition aroundTree (v : Vector3) : Prop :=
  vx v * vx v + vz v * vz v <= 7.4 * 7.4 /\ -8.1 <= vy v <= 8.1.

Definition wellOut (v : Vector3) : Prop :=
  19.9 * 19.9 <= vx v * vx v + vy v * vy v + vz v * vz v.

(** An exploded position: at least 20 from the centre. *)
Definition farOut (v : Vector3) : Prop :=
  20 * 20 <= vx v * vx v + vy v * vy v + vz v * vz v.

(** What holds of the build once [k] of [total] entities are written:
    the counter is [k], the buffers have their full length, and the
    entities written so far rest in the tree and explode far out. *)
Definition BuildInv (total k : nat) (b : Build) : Prop :=
  idx_ b = k /\
  length (posInit b) = (total * 3)%nat /\
  length (posExp b) = (total * 3)%nat /\
  length (col b) = (total * 3)%nat /\
  length (siz b) = total /\
  forall i, (i < k)%nat ->
    inTree (entity (posInit b) i) /\ farOut (entity (posExp b) i) /\
    0.25 <= idx (siz b) i <= 0.5.

(** An item of [ComplexDecorationSystem] with all its fields; [kind]
    is its [type], [types[i % 4]], [None] being [undefined]. *)
Record Decoration : Type := mkDecoration {
  id : nat;
  geometry : Item;
  kind : option string;
  rot : list R
}.

Definition types : list string := ["gift"; "hat"; "cane"; "bauble"].

(** Lines 195-200: the item number [i], [n] calls of [Math.random]
    having been made before. *)
Definition decoration (random : nat -> R) (n i : nat) : Decoration :=
  let y := random n * TREE_HEIGHT in
  let radiusAtY := TREE_RADIUS * (1 - y / TREE_HEIGHT) in
  let r := (0.7 + 0.3 * random (n + 1)%nat) * radiusAtY in
  let theta := random (n + 2)%nat * PI * 2 in
  let startPos := {| vx := r * cos theta; vy := y - TREE_HEIGHT / 2;
                     vz := r * sin theta |} in
  let expR := randomRange (random (n + 3)%nat) 15 60 in
  let expTheta := random (n + 4)%nat * PI * 2 in
  let expPhi := acos (2 * random (n + 5)%nat - 1) in
  let endPos := {| vx := expR * sin expPhi * cos expTheta;
                   vy := expR * sin expPhi * sin expTheta;
                   vz := expR * cos expPhi |} in
  {| id := i;
     geometry := {| startPos := startPos; endPos := endPos |};
     kind := types !! (i mod 4)%nat;
     rot := [random (n + 6)%nat * PI; random (n + 7)%nat * PI;
             random (n + 8)%nat * PI] |}.

(** Lines 192-203 for [count] items: [_items] and the number of calls
    of [Math.random] made. *)
Definition buildItems (random : nat -> R) (count : nat)
  : list Decoration * nat :=
  fold_left
    (fun st i => (st.1 ++ [decoration random st.2 i], (st.2 + 9)%nat))
    (seq 0 count) ([], 0%nat).

(** The decorations as first rendered from the items [useMemo] built. *)
Definition builtDecorations (random : nat -> R) : ComplexDecorationSystem :=
  decorationsOf (geometry <$> (buildItems random DECO_COUNT).1).


(** ** Starting the tracker and its prediction loop *)

(** The animation-frame side of [HandTracker]: the ref [reqIdRef], the
    handles of the callbacks the browser holds for the next frame, and
    the next handle [requestAnimationFrame] will return (handles are
    positive and never reused). *)
Record Loop : Type := mkLoop {
  reqIdRef : Z;
  scheduled : list Z;
  nextHandle : Z
}.

Definition initialLoop : Loop :=
  {| reqIdRef := 0; scheduled := []; nextHandle := 1 |}.

(** [reqIdRef.current = requestAnimationFrame(predict)], line 97 and
    line 121. *)
Definition requestPredict (l : Loop) : Loop :=
  {| reqIdRef := nextHandle l;
     scheduled := scheduled l ++ [nextHandle l];
     nextHandle := (nextHandle l + 1)%Z |}.

(** Line 121, the [onCanPlay] handler; [video] tells whether
    [videoRef.current] is set. *)
Definition onCanPlay (video : bool) (l : Loop) : Loop :=
  if video then
    if (reqIdRef l =? 0)%Z then requestPredict l else l
  else l.

(** An animation frame: the browser runs the callbacks it held, each
    once; every one of them is [predict], which ends by asking for the
    next frame. *)
Definition animationFrame (l : Loop) : Loop :=
  fold_left (fun l' _ => requestPredict l') (scheduled l)
    {| reqIdRef := reqIdRef l; scheduled := []; nextHandle := nextHandle l |}.

Inductive LoopEvent : Type :=
| CanPlay (video : bool)
| Frame.

Definition loopStep (l : Loop) (e : LoopEvent) : Loop :=
  match e with
  | CanPlay video => onCanPlay video l
  | Frame => animationFrame l
  end.

Definition loopRun (events : list LoopEvent) : Loop :=
  fold_left loopStep events initialLoop.

(** The state of [HandTracker] that its handlers read and write. *)
Record Tracker : Type := mkTracker {
  isMounted : bool;
  landmarkerLoaded : bool;       (* landmarkerRef.current is set *)
  modelLoaded : bool;
  isCameraActive : bool;
  status : string
}.

Definition initialTracker : Tracker :=
  {| isMounted := true; landmarkerLoaded := false; modelLoaded := false;
     isCameraActive := false; status := "Loading AI..." |}.

(** What happens to the tracker: [init] ends (lines 38-48), with the
    landmarker or with an exception; the effect is cleaned up (line
    50); the button is clicked (lines 100-102); [getUserMedia] ends
    (lines 103-106), with a stream or with an exception; the video can
    play (line 121). *)
Inductive TrackerEvent : Type :=
| InitEnded (ok : bool)
| Unmounted
| StartClicked
| MediaEnded (ok : bool)
| VideoCanPlay.

Definition trackerStep (t : Tracker) (e : TrackerEvent) : Tracker :=
  match e with
  | InitEnded true =>
      if isMounted t then
        {| isMounted := isMounted t; landmarkerLoaded := true;
           modelLoaded := true; isCameraActive := isCameraActive t;
           status := "Ready" |}
      else t
  | InitEnded false =>
      if isMounted t then
        {| isMounted := isMounted t; landmarkerLoaded := landmarkerLoaded t;
           modelLoaded := modelLoaded t; isCameraActive := isCameraActive t;
           status := "Error: AI Model Failed" |}
      else t
  | Unmounted =>
      {| isMounted := false; landmarkerLoaded := landmarkerLoaded t;
         modelLoaded := modelLoaded t; isCameraActive := isCameraActive t;
         status := status t |}
  | StartClicked =>
      if negb (landmarkerLoaded t) then t
      else
        {| isMounted := isMounted t; landmarkerLoaded := landmarkerLoaded t;
           modelLoaded := modelLoaded t; isCameraActive := true;
           status := "Starting Camera..." |}
  | MediaEnded true => t
  | MediaEnded false =>
      {| isMounted := isMounted t; landmarkerLoaded := landmarkerLoaded t;
         modelLoaded := modelLoaded t; isCameraActive := false;
         status := "Error: Camera Denied." |}
  | VideoCanPlay =>
      (* the video element exists only while the camera is active *)
      if isCameraActive t then
        {| isMounted := isMounted t; landmarkerLoaded := landmarkerLoaded t;
           modelLoaded := modelLoaded t; isCameraActive := isCameraActive t;
           status := "Active" |}
      else t
  end.

Definition trackerRun (events : list TrackerEvent) : Tracker :=
  fold_left trackerStep events initialTracker.

(** The colour of an entity as the colour buffer holds it. *)
Definition rgb (c : R * R * R) : Vector3 :=
  {| vx := c.1.1; vy := c.1.2; vz := c.2 |}.

(** What holds of the colour buffer once [k] entities are written, the
    first [leaves] of them leaves: a leaf has a colour of the palette,
    a ribbon point three times the ribbon colour. *)
Definition ColourInv (Color : option string -> R * R * R)
    (total leaves k : nat) (b : Build) : Prop :=
  idx_ b = k /\
  length (col b) = (total * 3)%nat /\
  forall i, (i < k)%nat ->
    ((i < leaves)%nat ->
     exists c, c ∈ LEAF_COLORS /\ entity (col b) i = rgb (Color (Some c))) /\
    ((leaves <= i)%nat ->
     entity (col b) i
     = {| vx := (Color (Some RIBBON_COLOR_HEX)).1.1 * 3;
          vy := (Color (Some RIBBON_COLOR_HEX)).1.2 * 3;
          vz := (Color (Some RIBBON_COLOR_HEX)).2 * 3 |}).

(** * Proofs *)

(** ** The prediction loop *)

Lemma predict_detects {M : Binary64} refs landmarks :
  detects refs landmarks ->
  published (predict refs) =
    match tryBlock {| getContext := true |} (Result landmarks) with
    | Some p => p
    | None => NoPublish
    end.
Proof.
  intros (video & [ctx] & Hv & Hc & Hl & Hr & Hw & Hh & Hctx).
  simpl in Hctx; subst ctx.
  unfold predict; rewrite Hv, Hl, Hc; simpl.
  apply Z.leb_le in Hr; apply Z.ltb_lt in Hw, Hh.
  rewrite Hr, Hw, Hh; reflexivity.
Qed.

Lemma detects_readyRefs landmarks : detects (readyRefs (Result landmarks)) landmarks.
Proof.
  eexists _, _; repeat split; simpl; try reflexivity; lia.
Qed.

Lemma isFingerExtended_point {M : Binary64} hand tip pip :
  (tip < length hand)%nat -> (pip < length hand)%nat ->
  isFingerExtended hand tip pip =
    Some (bool_decide (fingerExtended hand (tip, pip))).
Proof.
  intros Ht Hp.
  assert (H0 : (0 < length hand)%nat) by lia.
  destruct (lookup_lt_is_Some_2 hand 0 H0) as [w Hw].
  destruct (lookup_lt_is_Some_2 hand tip Ht) as [t Htip].
  destruct (lookup_lt_is_Some_2 hand pip Hp) as [p Hpip].
  unfold isFingerExtended. rewrite Hw, Htip, Hpip; simpl. f_equal.
  unfold bool_decide, decide, fingerExtended_dec, fingerExtended, point; simpl.
  set (o := {| lx := 0; ly := 0; lz := 0 |}).
  rewrite (nth_lookup_Some hand 0 o w Hw), (nth_lookup_Some hand tip o t Htip),
    (nth_lookup_Some hand pip o p Hpip).
  unfold Rgtb. destruct (Rgt_dec _ _); reflexivity.
Qed.

Lemma handBranch_21 {M : Binary64} hand :
  length hand = 21%nat ->
  handBranch hand =
    Some (Publish {| factor := if decide (4 <= extendedCount hand)%nat
                               then 1 else 0;
                     rotation := Some (rotationHint (lx (point hand 0))) |}).
Proof.
  intros Hlen.
  assert (H0 : (0 < length hand)%nat) by lia.
  destruct (lookup_lt_is_Some_2 hand 0 H0) as [w Hw].
  assert (Hp0 : point hand 0 = w) by (apply nth_lookup_Some; exact Hw).
  rewrite Hp0.
  unfold handBranch.
  rewrite !isFingerExtended_point, Hw by lia.
  unfold extendedCount, fingers.
  rewrite !filter_cons, filter_nil.
  unfold bool_decide, decide.
  repeat (destruct (fingerExtended_dec hand _)); reflexivity.
Qed.

Lemma predict_hand {M : Binary64} refs hand others :
  detects refs (hand :: others) ->
  length hand = 21%nat ->
  published (predict refs)
  = Publish {| factor := if decide (4 <= extendedCount hand)%nat then 1 else 0;
               rotation := Some (rotationHint (lx (point hand 0))) |}.
Proof.
  intros Hdet Hlen.
  rewrite (predict_detects _ _ Hdet).
  cbn [tryBlock getContext andb length Nat.ltb Nat.leb lookup list_lookup
       mbind option_bind].
  rewrite (handBranch_21 _ Hlen). reflexivity.
Qed.

Lemma in_fingers_lt finger :
  finger ∈ fingers -> (finger.1 < 21)%nat /\ (finger.2 < 21)%nat.
Proof.
  unfold fingers; intros H.
  repeat (apply elem_of_cons in H as [-> | H]; [simpl; lia |]).
  apply elem_of_nil in H; contradiction.
Qed.

Lemma handBranch_rotation {M : Binary64} hand s :
  handBranch hand = Some (Publish s) -> rotation s <> None.
Proof.
  unfold handBranch.
  destruct (isFingerExtended hand 8 6); [|discriminate].
  destruct (isFingerExtended hand 12 10); [|discriminate].
  destruct (isFingerExtended hand 16 14); [|discriminate].
  destruct (isFingerExtended hand 20 18); [|discriminate].
  destruct (isFingerExtended hand 4 2); [|discriminate].
  destruct (hand !! 0%nat); [|discriminate].
  cbn [mbind option_bind]; intros [= <-]; discriminate.
Qed.

Lemma published_rotation {M : Binary64} refs s :
  published (predict refs) = Publish s ->
  rotation s = None <-> detectedHands refs = [].
Proof.
  unfold predict, detectedHands; cbn [published].
  destruct (videoRef refs) as [video|]; [|discriminate].
  destruct (landmarkerRef refs) as [[|landmarks]|]; [| |discriminate].
  - destruct (canvasRef refs); [|discriminate].
    destruct (2 <=? readyState video)%Z; [|discriminate].
    destruct (_ && _); discriminate.
  - destruct (canvasRef refs) as [[ctx]|]; [|discriminate].
    destruct (2 <=? readyState video)%Z; [|discriminate].
    destruct (_ && _); [|discriminate].
    unfold tryBlock; cbn [getContext].
    destruct ctx, landmarks as [|hand others]; cbn -[handBranch];
      try discriminate.
    + intros [= <-]; split; reflexivity.
    + destruct (handBranch hand) as [[s'|]|] eqn:Hb; try discriminate.
      intros [= ->]. apply handBranch_rotation in Hb.
      split; [contradiction | discriminate].
Qed.

Lemma not_completed {M : Binary64} refs st : ~ completed refs -> cycle st refs = st.
Proof.
  unfold completed, cycle; intros H.
  destruct (published (predict refs)); [|reflexivity].
  exfalso; apply H; discriminate.
Qed.

Lemma cycles_snoc {M : Binary64} st run refs :
  cycles st (run ++ [refs]) = cycle (cycles st run) refs.
Proof. unfold cycles; rewrite fold_left_app; reflexivity. Qed.

Lemma enableRotate_null r : enableRotate r = true <-> r = None.
Proof. destruct r; simpl; split; congruence. Qed.

Lemma lastCompleted_rotation {M : Binary64} st run refs :
  lastCompleted run = Some refs ->
  rotation (cycles st run) = None <-> detectedHands refs = [].
Proof.
  unfold lastCompleted.
  induction run as [|r run IH] using rev_ind; [discriminate|].
  rewrite filter_app, cycles_snoc.
  destruct (decide (completed r)) as [Hc | Hc].
  - rewrite (filter_cons_True _ _ _ Hc), filter_nil, last_snoc.
    intros [= ->].
    unfold cycle. unfold completed in Hc.
    destruct (published (predict refs)) as [s|] eqn:Hp; [|contradiction].
    simpl. apply published_rotation; exact Hp.
  - rewrite (filter_cons_False _ _ _ Hc), filter_nil, app_nil_r.
    rewrite (not_completed _ _ Hc). exact IH.
Qed.

Lemma nothing_completed {M : Binary64} st run : lastCompleted run = None -> cycles st run = st.
Proof.
  unfold lastCompleted.
  induction run as [|r run IH] using rev_ind; [reflexivity|].
  rewrite filter_app, cycles_snoc.
  destruct (decide (completed r)) as [Hc | Hc].
  - rewrite (filter_cons_True _ _ _ Hc), filter_nil, last_snoc; discriminate.
  - rewrite (filter_cons_False _ _ _ Hc), filter_nil, app_nil_r.
    rewrite (not_completed _ _ Hc). exact IH.
Qed.

(** ** The particle cloud *)

Lemma idx_insert (l : list R) j v k :
  idx (<[j:=v]> l) k = if decide (j = k /\ (j < length l)%nat) then v else idx l k.
Proof.
  unfold idx. rewrite !nth_lookup.
  destruct (decide (j = k)) as [-> | Hne].
  - destruct (decide (k < length l)%nat) as [Hlt | Hge].
    + rewrite list_lookup_insert_eq by exact Hlt.
      rewrite decide_True by (split; [reflexivity | exact Hlt]). reflexivity.
    + rewrite list_insert_ge by lia.
      rewrite decide_False by (intros [_ ?]; lia). reflexivity.
  - rewrite list_lookup_insert_ne by exact Hne.
    rewrite decide_False by (intros [? _]; contradiction). reflexivity.
Qed.

Lemma moveParticle_length init exp tf sp cur i :
  length (moveParticle init exp tf sp cur i) = length cur.
Proof. unfold moveParticle; cbv zeta; rewrite !length_insert; reflexivity. Qed.

Lemma moveParticle_idx init exp tf sp cur i k :
  idx (moveParticle init exp tf sp cur i) k =
    if decide ((i * 3 <= k < i * 3 + 3)%nat /\ (k < length cur)%nat)
    then movedCell init exp tf sp cur k else idx cur k.
Proof.
  unfold moveParticle, movedCell; cbv zeta.
  rewrite !idx_insert, !length_insert.
  repeat case_decide; try lia; destruct_and?; subst; try reflexivity; try lia.
Qed.

Lemma loop_length init exp tf sp n cur :
  length (fold_left (moveParticle init exp tf sp) (seq 0 n) cur) = length cur.
Proof.
  induction n as [|n IH]; [reflexivity|].
  rewrite seq_S, fold_left_app; simpl.
  rewrite moveParticle_length; exact IH.
Qed.

Lemma loop_idx init exp tf sp n cur k :
  idx (fold_left (moveParticle init exp tf sp) (seq 0 n) cur) k =
    if decide ((k < n * 3)%nat /\ (k < length cur)%nat)
    then movedCell init exp tf sp cur k else idx cur k.
Proof.
  induction n as [|n IH].
  - cbn [seq fold_left]. rewrite decide_False by lia. reflexivity.
  - rewrite seq_S, fold_left_app; cbn [fold_left Nat.add].
    rewrite moveParticle_idx, loop_length.
    unfold movedCell at 1. rewrite IH.
    repeat case_decide; try lia; reflexivity.
Qed.

Lemma iterations_cover len k : (k < len)%nat -> (k < iterations len * 3)%nat.
Proof.
  unfold iterations; intros H.
  pose proof (Nat.div_mod_eq (len + 2) 3).
  pose proof (Nat.mod_upper_bound (len + 2) 3).
  lia.
Qed.

Lemma useFrame_idx p tf k :
  (k < length (currentPositions p))%nat ->
  idx (currentPositions (TreeParticles_useFrame true tf p)) k =
    movedCell (initialPositions p) (explodedPositions p) tf (speed tf)
              (currentPositions p) k.
Proof.
  intros Hk. unfold TreeParticles_useFrame; cbn [currentPositions].
  rewrite loop_idx.
  rewrite decide_True by (split; [apply iterations_cover|]; exact Hk).
  reflexivity.
Qed.

Lemma useFrame_length p tf :
  length (currentPositions (TreeParticles_useFrame true tf p))
  = length (currentPositions p).
Proof.
  unfold TreeParticles_useFrame; cbn [currentPositions]; apply loop_length.
Qed.

Lemma useFrame_fixed p tf :
  initialPositions (TreeParticles_useFrame true tf p) = initialPositions p /\
  explodedPositions (TreeParticles_useFrame true tf p) = explodedPositions p.
Proof. split; reflexivity. Qed.

Lemma particleFrames_snoc fs f p :
  particleFrames (fs ++ [f]) p
  = TreeParticles_useFrame true f (particleFrames fs p).
Proof. unfold particleFrames; rewrite fold_left_app; reflexivity. Qed.

Lemma particleFrames_fixed fs p :
  initialPositions (particleFrames fs p) = initialPositions p /\
  explodedPositions (particleFrames fs p) = explodedPositions p /\
  length (currentPositions (particleFrames fs p)) = length (currentPositions p).
Proof.
  induction fs as [|f fs IH] using rev_ind; [repeat split|].
  rewrite particleFrames_snoc.
  destruct IH as (Hi & He & Hl).
  pose proof (useFrame_fixed (particleFrames fs p) f) as [Hi' He'].
  rewrite Hi', He', useFrame_length. repeat split; assumption.
Qed.

(** One frame on a whole entity: it moves towards the blend of its two
    formations. *)
Lemma useFrame_entity p tf i :
  (i * 3 + 2 < length (currentPositions p))%nat ->
  entity (currentPositions (TreeParticles_useFrame true tf p)) i =
    lerpVectors (entity (currentPositions p) i)
      (lerpVectors (entity (initialPositions p) i)
                   (entity (explodedPositions p) i) tf)
      (speed tf).
Proof.
  intros Hi. unfold entity, lerpVectors; cbn [vx vy vz].
  rewrite !useFrame_idx by lia. reflexivity.
Qed.

Lemma square_pos r : r <> 0 -> 0 < r * r.
Proof. intros Hr. destruct (Rtotal_order r 0) as [H | [H | H]]; nra. Qed.

Lemma lerpVectors_0 a b : lerpVectors a b 0 = a.
Proof.
  destruct a, b; unfold lerpVectors; cbn [vx vy vz]; f_equal; ring.
Qed.

(** ** The decorative objects *)

Lemma forEachChild_spec its f cs : forall i,
  (i + length cs <= length its)%nat ->
  exists cs',
    forEachChild its f i cs = Some cs' /\
    length cs' = length cs /\
    forall k it, (k < length cs)%nat -> its !! (i + k)%nat = Some it ->
      cs' !! k = Some (lerpVectors (startPos it) (endPos it) f).
Proof.
  induction cs as [|c cs IH]; intros i Hlen.
  - exists []; repeat split. intros k it Hk; simpl in Hk; lia.
  - simpl in Hlen.
    assert (Hi : (i < length its)%nat) by lia.
    destruct (lookup_lt_is_Some_2 its i Hi) as [it0 Hit0].
    destruct (IH (S i)) as (cs' & Hrun & Hlen' & Hget); [lia|].
    exists (lerpVectors (startPos it0) (endPos it0) f :: cs').
    cbn [forEachChild]. rewrite Hit0; cbn [mbind option_bind].
    rewrite Hrun; cbn [mbind option_bind].
    split; [reflexivity|]. split; [simpl; congruence|].
    intros [|k] it Hk Hit.
    + rewrite Nat.add_0_r in Hit. simpl. congruence.
    + simpl. apply Hget; [simpl in Hk; lia|].
      rewrite <- Hit; f_equal; lia.
Qed.

Lemma decoration_frame tf d :
  length (children d) = length (items d) ->
  exists d',
    ComplexDecorationSystem_useFrame true tf d = Some d' /\
    items d' = items d /\
    length (children d') = length (items d) /\
    curF d' = curF d + (tf - curF d) * speed tf /\
    forall j it, items d !! j = Some it ->
      children d' !! j = Some (lerpVectors (startPos it) (endPos it) (curF d')).
Proof.
  intros Hlen. unfold ComplexDecorationSystem_useFrame.
  fold (speed tf).
  destruct (forEachChild_spec (items d) (curF d + (tf - curF d) * speed tf)
              (children d) 0) as (cs' & Hrun & Hlen' & Hget); [lia|].
  rewrite Hrun; cbn [mbind option_bind].
  eexists; split; [reflexivity|]; cbn [items curF children].
  repeat split; [congruence|].
  intros j it Hit. apply Hget; [|exact Hit].
  rewrite Hlen. apply lookup_lt_is_Some_1; eexists; exact Hit.
Qed.

Lemma lerp_towards_lerp s e F tf sp :
  lerpVectors (lerpVectors s e F) (lerpVectors s e tf) sp
  = lerpVectors s e (F + (tf - F) * sp).
Proof. unfold lerpVectors; cbn [vx vy vz]; f_equal; ring. Qed.

Section Agreement.
Variables (init exp : list R) (its : list Item) (i j : nat).
Hypothesis in_range : (i * 3 + 2 < length init)%nat.
Hypothesis same_entity :
  its !! j = Some {| startPos := entity init i; endPos := entity exp i |}.

Lemma frames_agree fs : forall p d,
  initialPositions p = init -> explodedPositions p = exp ->
  length (currentPositions p) = length init ->
  items d = its -> length (children d) = length its ->
  entity (currentPositions p) i
    = lerpVectors (entity init i) (entity exp i) (curF d) ->
  exists d',
    decorationFrames fs d = Some d' /\
    entity (currentPositions (particleFrames fs p)) i
      = lerpVectors (entity init i) (entity exp i) (curF d') /\
    (children d !! j
       = Some (lerpVectors (entity init i) (entity exp i) (curF d))
     \/ fs <> [] ->
     children d' !! j
       = Some (lerpVectors (entity init i) (entity exp i) (curF d'))).
Proof.
  induction fs as [|f fs IH]; intros p d Hi He Hl Hits Hch Hinv.
  - exists d; repeat split; [exact Hinv|].
    intros [H | H]; [exact H | contradiction].
  - rewrite <- Hits in Hch.
    destruct (decoration_frame f d Hch) as (d1 & Hrun & Hits1 & Hch1 & HF & Hget).
    rewrite Hits in Hits1, Hch1, Hget.
    specialize (Hget j _ same_entity); cbn [startPos endPos] in Hget.
    destruct (IH (TreeParticles_useFrame true f p) d1) as (d' & Hrun' & Hinv' & Hchild);
      try assumption.
    + rewrite useFrame_length; exact Hl.
    + rewrite useFrame_entity by (rewrite Hl; exact in_range).
      rewrite Hi, He, Hinv, lerp_towards_lerp, HF. reflexivity.
    + exists d'. cbn [decorationFrames]. rewrite Hrun; cbn [mbind option_bind].
      split; [exact Hrun'|]. split; [exact Hinv'|].
      intros _. apply Hchild. left; exact Hget.
Qed.
End Agreement.

(** ** The pivot *)

Lemma sceneFrames_snoc frames fr yaw :
  sceneFrames (frames ++ [fr]) yaw
  = Scene_useFrame true fr.1 fr.2 (sceneFrames frames yaw).
Proof. unfold sceneFrames; rewrite fold_left_app; reflexivity. Qed.

(** ** Sample hands *)

Lemma sample_distance wx d :
  0 <= d ->
  getDistance {| lx := wx + 0; ly := 0; lz := 0 |}
              {| lx := wx + d; ly := 0; lz := 0 |} = d.
Proof.
  intros Hd. unfold getDistance; cbn [Math_hypot subtract exact]; unfold hypot; cbn [lx ly].
  replace ((wx + 0 - (wx + d)) * (wx + 0 - (wx + d)) + (0 - 0) * (0 - 0))
    with (d * d) by ring.
  apply sqrt_square; exact Hd.
Qed.

Lemma sample_open_palm wx : extendedCount (sampleHand wx 2 2) = 5%nat.
Proof.
  unfold extendedCount, fingers.
  rewrite !filter_cons, filter_nil.
  rewrite !decide_True; [reflexivity | ..];
    unfold fingerExtended, point, sampleHand; cbn [nth fst snd];
    rewrite !sample_distance by lra; lra.
Qed.

Lemma sample_fist wx : extendedCount (sampleHand wx 0.5 0.5) = 0%nat.
Proof.
  unfold extendedCount, fingers.
  rewrite !filter_cons, filter_nil.
  rewrite !decide_False; [reflexivity | ..];
    unfold fingerExtended, point, sampleHand; cbn [nth fst snd];
    rewrite !sample_distance by lra; lra.
Qed.

Example open_palm_explodes :
  published (predict (readyRefs (Result [sampleHand 0.5 2 2])))
  = Publish {| factor := 1; rotation := Some (rotationHint 0.5) |}.
Proof.
  rewrite (predict_hand _ (sampleHand 0.5 2 2) [] (detects_readyRefs _) eq_refl).
  rewrite sample_open_palm, decide_True by lia.
  replace (lx (point (sampleHand 0.5 2 2) 0)) with 0.5; [reflexivity|].
  unfold point, sampleHand; cbn [nth lx]. lra.
Qed.

Example fist_gathers :
  published (predict (readyRefs (Result [sampleHand 0.5 0.5 0.5])))
  = Publish {| factor := 0; rotation := Some (rotationHint 0.5) |}.
Proof.
  rewrite (predict_hand _ (sampleHand 0.5 0.5 0.5) [] (detects_readyRefs _) eq_refl).
  rewrite sample_fist, decide_False by lia.
  replace (lx (point (sampleHand 0.5 0.5 0.5) 0)) with 0.5; [reflexivity|].
  unfold point, sampleHand; cbn [nth lx]. lra.
Qed.

(** Without a 2D context the [try] block returns without publishing,
    hand or no hand: both branches of line 81 and line 91 ask for it. *)
Lemma no_context_no_publication {M : Binary64} landmarks :
  tryBlock {| getContext := false |} (Result landmarks) = Some NoPublish.
Proof. reflexivity. Qed.

(** * The claims *)

(** C1. With the mesh mounted, a render frame takes every axis [k] of
    every entity [i] of the particle cloud from its current value to
    [current + (target - current) * speed], where
    [target = rest + (exploded - rest) * factor] is computed from the
    factor of that very frame and [speed] is 0.20 when the factor
    exceeds 0.1 and 0.12 otherwise. *)
Theorem formation_step p targetFactor i k :
  wellFormed p ->
  (i * 3 + 2 < length (currentPositions p))%nat ->
  (i * 3 <= k <= i * 3 + 2)%nat ->
  let target :=
    idx (initialPositions p) k
    + (idx (explodedPositions p) k - idx (initialPositions p) k) * targetFactor in
  let sp := if Rgt_dec targetFactor 0.1 then 0.20 else 0.12 in
  idx (currentPositions (TreeParticles_useFrame true targetFactor p)) k
  = idx (currentPositions p) k + (target - idx (currentPositions p) k) * sp.
Proof.
  intros _ Hi Hk target sp.
  rewrite useFrame_idx by lia. reflexivity.
Qed.

Lemma formation_step_witness :
  idx (currentPositions
         (TreeParticles_useFrame true 1 (atRest [0; 0; 0] [3; 4; 5]))) 1
  = 0 + ((0 + (4 - 0) * 1) - 0) * (if Rgt_dec 1 0.1 then 0.20 else 0.12).
Proof.
  apply (formation_step (atRest [0; 0; 0] [3; 4; 5]) 1 0 1).
  - split; reflexivity.
  - simpl; lia.
  - lia.
Defined.

(** C2. When a hand of 21 landmarks is detected, let the reach of
    landmark [i] be what [Math.hypot] returns on the differences of the
    wrist's and the landmark's [x] and [y].  Each of the five finger
    tests (tip, joint) = (8,6), (12,10), (16,14), (20,18), (4,2) passes
    exactly when the reach of the tip exceeds the reach of the joint,
    and the published explosion target is 1 if at least four of the
    five pass and 0 otherwise.  This holds whatever [Math.hypot] and
    the subtraction return, so of their rounded results too. *)
Theorem explosion_target_counts_fingers {M : Binary64} refs hand others :
  detects refs (hand :: others) ->
  length hand = 21%nat ->
  let reach i :=
    Math_hypot (subtract (lx (point hand 0)) (lx (point hand i)))
               (subtract (ly (point hand 0)) (ly (point hand i))) in
  (forall finger, finger ∈ fingers ->
     isFingerExtended hand finger.1 finger.2 = Some true
     <-> reach finger.1 > reach finger.2) /\
  exists rot,
    published (predict refs)
    = Publish
        {| factor :=
             if decide (4 <= length (filter (fun finger : nat * nat =>
                                               (reach finger.1 > reach finger.2)%R)
                                            fingers))%nat
             then 1 else 0;
           rotation := rot |}.
Proof.
  intros Hdet Hlen reach. split.
  - intros [tip pip] Hin. apply in_fingers_lt in Hin as [Ht Hp]; simpl in Ht, Hp.
    cbn [fst snd].
    rewrite isFingerExtended_point by lia.
    change (fingerExtended hand (tip, pip)) with (reach tip > reach pip).
    split.
    + intros [= H]. apply bool_decide_eq_true in H. exact H.
    + intros H. f_equal. apply bool_decide_eq_true. exact H.
  - rewrite (predict_hand _ _ _ Hdet Hlen). eexists; reflexivity.
Qed.

Lemma explosion_target_counts_fingers_witness :
  exists rot,
    published (predict (readyRefs (Result [sampleHand 0.5 2 2])))
    = Publish {| factor := 1; rotation := rot |}.
Proof.
  destruct (explosion_target_counts_fingers
              (readyRefs (Result [sampleHand 0.5 2 2])) (sampleHand 0.5 2 2) []
              (detects_readyRefs _) eq_refl) as [_ [rot Hpub]].
  exists rot. rewrite Hpub.
  change (length (filter _ fingers)) with (extendedCount (sampleHand 0.5 2 2)).
  rewrite sample_open_palm. reflexivity.
Defined.

(** C3. When a hand of 21 landmarks is detected, the rotation published
    is [(0.5 - wristX) * 5] whatever the gesture (the explosion target
    published with it may be either value); as a function of the wrist's
    x this hint is continuous, strictly decreasing on [0,1], 0 at 0.5,
    2.5 at 0 and -2.5 at 1. *)
Theorem rotation_hint_published {M : Binary64} refs hand others :
  detects refs (hand :: others) ->
  length hand = 21%nat ->
  (exists target,
     published (predict refs)
     = Publish {| factor := target;
                  rotation := Some ((0.5 - lx (point hand 0)) * 5) |}) /\
  continuity rotationHint /\
  (forall x y, 0 <= x -> x < y -> y <= 1 -> rotationHint y < rotationHint x) /\
  rotationHint 0.5 = 0 /\
  rotationHint 0 = 2.5 /\
  rotationHint 1 = -2.5.
Proof.
  intros Hdet Hlen. split; [|split; [|split; [|split; [|split]]]].
  - rewrite (predict_hand _ _ _ Hdet Hlen). eexists; reflexivity.
  - unfold rotationHint. reg.
  - intros x y _ Hxy _. unfold rotationHint. lra.
  - unfold rotationHint; lra.
  - unfold rotationHint; lra.
  - unfold rotationHint; lra.
Qed.

Lemma rotation_hint_published_witness :
  exists target,
    published (predict (readyRefs (Result [sampleHand 0.25 0.5 0.5])))
    = Publish {| factor := target;
                 rotation := Some ((0.5 - lx (point (sampleHand 0.25 0.5 0.5) 0)) * 5) |}.
Proof.
  apply (rotation_hint_published
           (readyRefs (Result [sampleHand 0.25 0.5 0.5]))
           (sampleHand 0.25 0.5 0.5) []).
  - apply detects_readyRefs.
  - reflexivity.
Defined.

(** C4. An inference cycle whose detection result holds no hand
    publishes explosion target 0 and rotation null, so that the
    interaction state is exactly that pair afterwards, whatever it was
    before. *)
Theorem no_hand_resets {M : Binary64} st refs :
  detects refs [] ->
  published (predict refs) = Publish {| factor := 0; rotation := None |} /\
  cycle st refs = {| factor := 0; rotation := None |}.
Proof.
  intros Hdet. unfold cycle.
  rewrite (predict_detects _ _ Hdet). split; reflexivity.
Qed.

Lemma no_hand_resets_witness :
  cycle palmState (readyRefs (Result [])) = {| factor := 0; rotation := None |}.
Proof.
  apply (no_hand_resets palmState (readyRefs (Result []))).
  apply detects_readyRefs.
Defined.

(** C5, as the source has it.  When the inference step throws, the
    exception is caught and dropped: nothing is published in that
    cycle, the interaction state keeps the value it had, and the next
    animation frame is requested all the same. *)
Theorem exception_keeps_state {M : Binary64} st refs :
  inferenceThrows refs ->
  published (predict refs) = NoPublish /\
  cycle st refs = st /\
  nextFrameRequested (predict refs) = true.
Proof.
  intros (video & canvas & detect & Hv & Hc & Hl & Hr & Hw & Hh & Hthrow).
  assert (Hp : published (predict refs) = NoPublish).
  { unfold predict; rewrite Hv, Hl, Hc; cbn [published].
    apply Z.leb_le in Hr; apply Z.ltb_lt in Hw, Hh.
    rewrite Hr, Hw, Hh, Hthrow; reflexivity. }
  split; [exact Hp|]. split; [|reflexivity].
  unfold cycle; rewrite Hp; reflexivity.
Qed.

Lemma inferenceThrows_readyRefs : inferenceThrows (readyRefs Throws).
Proof.
  eexists _, _, _; repeat split; simpl; try reflexivity; lia.
Qed.

Lemma exception_keeps_state_witness :
  published (predict (readyRefs Throws)) = NoPublish /\
  cycle palmState (readyRefs Throws) = palmState /\
  nextFrameRequested (predict (readyRefs Throws)) = true.
Proof.
  apply (exception_keeps_state palmState (readyRefs Throws)).
  apply inferenceThrows_readyRefs.
Defined.

(** C5 as stated fails: after an open palm, a cycle whose detector
    throws leaves the open-palm state in place, whereas a cycle without
    a hand would have published target 0 and rotation null. *)
Lemma exception_is_not_no_hand :
  inferenceThrows (readyRefs Throws) /\
  cycle palmState (readyRefs Throws) = palmState /\
  cycle palmState (readyRefs Throws) <> {| factor := 0; rotation := None |} /\
  cycle palmState (readyRefs Throws) <> cycle palmState (readyRefs (Result [])).
Proof.
  split; [apply inferenceThrows_readyRefs|].
  split; [reflexivity|]. split; intros H; inversion H.
Qed.

(** C10. After any run of inference cycles, the published rotation is
    null exactly when the last completed cycle detected no hand (and it
    is still the initial null when no cycle has completed); camera drag
    is enabled under the same condition.  A detected hand of 21
    landmarks completes its cycle and publishes a rotation that is not
    null whichever explosion target goes with it, open palm included, so
    drag is disabled then. *)
Theorem rotation_null_iff_no_hand {M : Binary64} run :
  (forall st refs, lastCompleted run = Some refs ->
     (rotation (cycles st run) = None <-> detectedHands refs = []) /\
     (enableRotate (rotation (cycles st run)) = true <-> detectedHands refs = [])) /\
  (lastCompleted run = None ->
     cycles initialInteraction run = initialInteraction /\
     enableRotate (rotation (cycles initialInteraction run)) = true) /\
  (forall st refs hand others,
     detects refs (hand :: others) -> length hand = 21%nat ->
     completed refs /\
     rotation (cycle st refs) <> None /\
     enableRotate (rotation (cycle st refs)) = false).
Proof.
  split; [|split].
  - intros st refs Hlast.
    pose proof (lastCompleted_rotation st run refs Hlast) as H.
    split; [exact H|]. rewrite enableRotate_null; exact H.
  - intros Hnone. rewrite (nothing_completed _ _ Hnone). split; reflexivity.
  - intros st refs hand others Hdet Hlen.
    unfold completed, cycle; rewrite (predict_hand _ _ _ Hdet Hlen).
    cbn [applyPublication rotation enableRotate].
    repeat split; discriminate.
Qed.

Lemma rotation_null_iff_no_hand_witness :
  rotation (cycles palmState [readyRefs (Result []); readyRefs Throws]) = None
  <-> detectedHands (readyRefs (Result [])) = [].
Proof.
  apply (proj1 (rotation_null_iff_no_hand
                  [readyRefs (Result []); readyRefs Throws])
               palmState (readyRefs (Result []))).
  reflexivity.
Defined.

(** C8. Whatever frames came before, a render frame that sees a
    non-null rotation [theta] moves the pivot's yaw a fixed fraction
    (0.1) of the way to [theta], which leaves 0.9 of the gap, and
    camera drag is disabled; a frame that sees a null rotation adds
    0.2 per unit of frame time to the yaw, which strictly increases it
    whenever time has advanced since the previous frame, and camera
    drag is enabled.  The mode of a frame depends on the rotation of
    that frame alone. *)
Theorem pivot_modes frames yaw0 theta delta :
  let yaw := sceneFrames frames yaw0 in
  let approached := sceneFrames (frames ++ [(Some theta, delta)]) yaw0 in
  let spun := sceneFrames (frames ++ [(None, delta)]) yaw0 in
  approached = yaw + (theta - yaw) * 0.1 /\
  approached - theta = (1 - 0.1) * (yaw - theta) /\
  enableRotate (Some theta) = false /\
  spun = yaw + 0.2 * delta /\
  (0 < delta -> yaw < spun) /\
  enableRotate None = true.
Proof.
  intros yaw approached spun.
  subst approached spun. rewrite !sceneFrames_snoc. fold yaw.
  cbn [fst snd Scene_useFrame enableRotate]. unfold lerp.
  repeat split; try intros Hdelta; lra.
Qed.

Lemma pivot_modes_witness :
  sceneFrames [(Some 1, 0.016)] 0
  < sceneFrames ([(Some 1, 0.016)] ++ [(None, 0.016)]) 0.
Proof.
  destruct (pivot_modes [(Some 1, 0.016)] 0 1 0.016)
    as (_ & _ & _ & _ & Hspin & _).
  apply Hspin. lra.
Defined.

(** C9. Take a decorative object and a particle with the same rest and
    exploded positions, the particle on its rest position and the
    decorations as first rendered.  After any non-empty sequence of
    published factors, one render frame each, the position the
    decorative update gives the object (the shared [curF] advanced,
    then the exact interpolation at [curF]) is the position the particle
    update gives the particle.  The sequence being arbitrary, this holds
    frame by frame. *)
Theorem decorations_follow_particles init exp its i j fs :
  length init = length exp ->
  (i * 3 + 2 < length init)%nat ->
  its !! j = Some {| startPos := entity init i; endPos := entity exp i |} ->
  fs <> [] ->
  exists d,
    decorationFrames fs (decorationsOf its) = Some d /\
    children d !! j
    = Some (entity (currentPositions (particleFrames fs (atRest init exp))) i).
Proof.
  intros Hlen Hi Hit Hfs.
  destruct (frames_agree init exp its i j Hi Hit fs
              (atRest init exp) (decorationsOf its))
    as (d & Hrun & Hinv & Hchild); try reflexivity.
  - unfold decorationsOf; cbn [children]. apply length_map.
  - unfold decorationsOf, atRest; cbn [curF currentPositions].
    rewrite lerpVectors_0; reflexivity.
  - exists d; split; [exact Hrun|].
    rewrite Hinv. apply Hchild. right; exact Hfs.
Qed.

Lemma decorations_follow_particles_witness :
  exists d,
    decorationFrames [1; 0] (decorationsOf [mkItem (entity [0; 0; 0] 0)
                                                   (entity [3; 4; 5] 0)])
    = Some d /\
    children d !! 0%nat
    = Some (entity (currentPositions
                      (particleFrames [1; 0] (atRest [0; 0; 0] [3; 4; 5]))) 0).
Proof.
  apply (decorations_follow_particles [0; 0; 0] [3; 4; 5]
           [mkItem (entity [0; 0; 0] 0) (entity [3; 4; 5] 0)] 0 0 [1; 0]).
  - reflexivity.
  - simpl; lia.
  - reflexivity.
  - discriminate.
Defined.

(** * Further properties of the source *)

(** ** Helpers and the classifier *)

Lemma isFingerExtended_None {M : Binary64} hand tip pip :
  (length hand <= tip)%nat \/ (length hand <= pip)%nat ->
  isFingerExtended hand tip pip = None.
Proof.
  intros H. unfold isFingerExtended.
  destruct (hand !! 0%nat) as [w|]; [|reflexivity].
  destruct H as [H | H].
  - rewrite (lookup_ge_None_2 hand tip H). reflexivity.
  - rewrite (lookup_ge_None_2 hand pip H).
    destruct (hand !! tip); reflexivity.
Qed.

Lemma handBranch_long {M : Binary64} hand :
  (21 <= length hand)%nat -> exists s, handBranch hand = Some (Publish s).
Proof.
  intros Hlen. unfold handBranch.
  rewrite !isFingerExtended_point by lia.
  assert (H0 : (0 < length hand)%nat) by lia.
  destruct (lookup_lt_is_Some_2 hand 0 H0) as [w Hw].
  rewrite Hw. eexists; reflexivity.
Qed.

Lemma randomRange_unit random min max :
  0 <= random < 1 -> min <= max -> min <= randomRange random min max <= max.
Proof. intros Hr Hmm. unfold randomRange. split; nra. Qed.

(** X2. With the exact operations, [getDistance] is a distance in
    the image plane: symmetric, never negative, and zero exactly for
    two points with the same [x] and [y], whatever their depths. *)
Theorem getDistance_planar p q :
  getDistance p q = getDistance q p /\
  0 <= getDistance p q /\
  (getDistance p q = 0 <-> lx p = lx q /\ ly p = ly q).
Proof.
  unfold getDistance; cbn [Math_hypot subtract exact]; unfold hypot.
  split; [f_equal; ring|]. split; [apply sqrt_pos|].
  pose proof (Rle_0_sqr (lx p - lx q)) as Sx.
  pose proof (Rle_0_sqr (ly p - ly q)) as Sy.
  unfold Rsqr in Sx, Sy.
  split.
  - intros H. apply sqrt_eq_0 in H; [|lra].
    destruct (Req_dec (lx p) (lx q)) as [Hx | Hx];
      [|pose proof (square_pos (lx p - lx q)); lra].
    destruct (Req_dec (ly p) (ly q)) as [Hy | Hy];
      [|pose proof (square_pos (ly p - ly q)); lra].
    split; assumption.
  - intros [-> ->].
    replace ((lx q - lx q) * (lx q - lx q) + (ly q - ly q) * (ly q - ly q))
      with 0 by ring.
    apply sqrt_0.
Qed.

Lemma handBranch_short {M : Binary64} hand :
  (length hand < 21)%nat -> handBranch hand = None.
Proof.
  intros Hlen. unfold handBranch.
  rewrite (isFingerExtended_None hand 20 18) by lia.
  destruct (isFingerExtended hand 8 6); [|reflexivity].
  destruct (isFingerExtended hand 12 10); [|reflexivity].
  destruct (isFingerExtended hand 16 14); reflexivity.
Qed.

(** X4. [handBranch] throws exactly on a hand of fewer than 21
    landmarks; a cycle that detects such a hand publishes nothing and
    leaves the interaction state as it was. *)
Theorem short_hand_throws {M : Binary64} hand :
  (handBranch hand = None <-> (length hand < 21)%nat) /\
  (forall st refs others,
     detects refs (hand :: others) -> (length hand < 21)%nat ->
     published (predict refs) = NoPublish /\ cycle st refs = st).
Proof.
  pose proof (handBranch_short hand) as Hshort.
  split.
  - split; [|exact Hshort].
    intros Hnone. destruct (le_lt_dec 21 (length hand)) as [Hge | Hlt]; [|exact Hlt].
    destruct (handBranch_long hand Hge) as [s Hs]. congruence.
  - intros st refs others Hdet Hlen.
    assert (Hp : published (predict refs) = NoPublish).
    { rewrite (predict_detects _ _ Hdet).
      cbn [tryBlock getContext andb length Nat.ltb Nat.leb lookup list_lookup
           mbind option_bind].
      rewrite (Hshort Hlen). reflexivity. }
    split; [exact Hp|]. unfold cycle; rewrite Hp; reflexivity.
Qed.

Lemma short_hand_throws_witness :
  published (predict (readyRefs (Result [[mkLandmark 0.5 0.5 0]]))) = NoPublish /\
  cycle palmState (readyRefs (Result [[mkLandmark 0.5 0.5 0]])) = palmState.
Proof.
  apply (proj2 (short_hand_throws [mkLandmark 0.5 0.5 0]) palmState
               (readyRefs (Result [[mkLandmark 0.5 0.5 0]])) []).
  - apply detects_readyRefs.
  - simpl; lia.
Defined.

(** ** The particle cloud under any factor *)

Lemma speed_range f : 0.12 <= speed f <= 0.20.
Proof.
  unfold speed, EXPLOSION_SPEED, RETURN_SPEED.
  destruct (Rgt_dec f 0.1); lra.
Qed.

Lemma blend_step_between c f sp :
  0 <= c <= 1 -> 0 <= f <= 1 -> 0 <= sp <= 1 ->
  0 <= c + (f - c) * sp <= 1.
Proof. intros; split; nra. Qed.

Lemma on_segment_frames init exp i fs : forall p c,
  (i * 3 + 2 < length init)%nat ->
  initialPositions p = init -> explodedPositions p = exp ->
  length (currentPositions p) = length init ->
  Forall (fun f => 0 <= f <= 1) fs ->
  0 <= c <= 1 ->
  entity (currentPositions p) i = lerpVectors (entity init i) (entity exp i) c ->
  exists c',
    0 <= c' <= 1 /\
    entity (currentPositions (particleFrames fs p)) i
    = lerpVectors (entity init i) (entity exp i) c'.
Proof.
  induction fs as [|f fs IH]; intros p c Hi Hinit Hexp Hl Hfs Hc Hpos.
  - exists c; split; assumption.
  - apply Forall_cons in Hfs as [Hf Hfs].
    pose proof (speed_range f) as Hsp.
    apply (IH (TreeParticles_useFrame true f p) (c + (f - c) * speed f));
      try assumption.
    + rewrite useFrame_length; exact Hl.
    + apply blend_step_between; lra.
    + rewrite useFrame_entity by (rewrite Hl; exact Hi).
      rewrite Hinit, Hexp, Hpos. apply lerp_towards_lerp.
Qed.

(** X6. No overshoot: as long as the factors seen are between 0 and 1,
    an entity that starts on its rest position is at every frame on the
    segment that joins its rest position to its exploded position. *)
Theorem particle_stays_on_segment init exp i fs :
  length init = length exp ->
  (i * 3 + 2 < length init)%nat ->
  Forall (fun f => 0 <= f <= 1) fs ->
  exists c,
    0 <= c <= 1 /\
    entity (currentPositions (particleFrames fs (atRest init exp))) i
    = lerpVectors (entity init i) (entity exp i) c.
Proof.
  intros _ Hi Hfs.
  apply (on_segment_frames init exp i fs (atRest init exp) 0);
    try assumption; try reflexivity; try lra.
  cbn [atRest currentPositions]. rewrite lerpVectors_0. reflexivity.
Qed.

Lemma particle_stays_on_segment_witness :
  exists c,
    0 <= c <= 1 /\
    entity (currentPositions (particleFrames [1; 0; 1] (atRest [0; 0; 0] [3; 4; 5]))) 0
    = lerpVectors (entity [0; 0; 0] 0) (entity [3; 4; 5] 0) c.
Proof.
  apply (particle_stays_on_segment [0; 0; 0] [3; 4; 5] 0 [1; 0; 1]).
  - reflexivity.
  - simpl; lia.
  - repeat constructor; lra.
Defined.

(** X7. Render frames never touch the rest and exploded buffers and
    never resize the current one, so a well-formed cloud stays
    well-formed; a frame without a mounted mesh changes nothing. *)
Theorem buffers_are_stable fs p :
  wellFormed p ->
  wellFormed (particleFrames fs p) /\
  initialPositions (particleFrames fs p) = initialPositions p /\
  explodedPositions (particleFrames fs p) = explodedPositions p /\
  length (currentPositions (particleFrames fs p)) = length (currentPositions p) /\
  (forall f, TreeParticles_useFrame false f p = p).
Proof.
  intros [Hi He].
  destruct (particleFrames_fixed fs p) as (Hinit & Hexp & Hl).
  unfold wellFormed. rewrite Hinit, Hexp, Hl.
  repeat split; try assumption; reflexivity.
Qed.

Lemma buffers_are_stable_witness :
  wellFormed (particleFrames [1; 0] (atRest [0; 0; 0] [3; 4; 5])).
Proof.
  apply (buffers_are_stable [1; 0] (atRest [0; 0; 0] [3; 4; 5])).
  split; reflexivity.
Defined.

(** ** The decorative objects, edge cases and invariants *)

Lemma forEachChild_overrun its f cs : forall i,
  (i <= length its)%nat -> (length its < i + length cs)%nat ->
  forEachChild its f i cs = None.
Proof.
  induction cs as [|c cs IH]; intros i Hi Hlen; [simpl in Hlen; lia|].
  cbn [forEachChild]. simpl in Hlen.
  destruct (its !! i) as [it|] eqn:Hit; [|reflexivity].
  cbn [mbind option_bind].
  apply lookup_lt_Some in Hit.
  rewrite IH by lia. reflexivity.
Qed.

(** X8. A decoration frame throws exactly when the group holds more
    children than there are items: then some child has no item to be
    placed from. *)
Theorem decoration_frame_throws_iff f d :
  ComplexDecorationSystem_useFrame true f d = None
  <-> (length (items d) < length (children d))%nat.
Proof.
  unfold ComplexDecorationSystem_useFrame.
  set (f' := curF d + _).
  split.
  - intros Hnone.
    destruct (le_lt_dec (length (children d)) (length (items d))) as [Hle | Hlt];
      [|exact Hlt].
    destruct (forEachChild_spec (items d) f' (children d) 0) as (cs & Hrun & _);
      [lia|].
    rewrite Hrun in Hnone. discriminate.
  - intros Hlt. rewrite forEachChild_overrun by lia. reflexivity.
Qed.

Lemma decorations_invariant fs : forall d,
  length (children d) = length (items d) ->
  Forall (fun f => 0 <= f <= 1) fs ->
  0 <= curF d <= 1 ->
  exists d',
    decorationFrames fs d = Some d' /\
    items d' = items d /\
    length (children d') = length (items d) /\
    0 <= curF d' <= 1 /\
    (fs <> [] ->
     forall j it, items d !! j = Some it ->
       children d' !! j
       = Some (lerpVectors (startPos it) (endPos it) (curF d'))).
Proof.
  induction fs as [|f fs IH]; intros d Hlen Hfs Hc.
  - exists d; repeat split; try assumption; try lra. contradiction.
  - apply Forall_cons in Hfs as [Hf Hfs].
    destruct (decoration_frame f d Hlen) as (d1 & Hrun & Hits & Hlen1 & HF & Hget).
    pose proof (speed_range f) as Hsp.
    destruct (IH d1) as (d' & Hrun' & Hits' & Hlen' & Hc' & Hget').
    + rewrite Hits; exact Hlen1.
    + exact Hfs.
    + rewrite HF. apply blend_step_between; lra.
    + exists d'. cbn [decorationFrames]. rewrite Hrun; cbn [mbind option_bind].
      rewrite Hits in Hits', Hlen', Hget'.
      repeat split; try assumption; try lra.
      intros _ j it Hit.
      destruct fs as [|f2 fs].
      * cbn [decorationFrames] in Hrun'. injection Hrun' as <-.
        apply Hget; exact Hit.
      * apply Hget'; [discriminate | exact Hit].
Qed.

(** X9. From the decorations as first rendered and under factors
    between 0 and 1, no frame throws, the items and the number of
    children stay as they are, the shared blend [curF] stays between 0
    and 1, and after each frame every child sits on the segment from
    its item's start to its end, all at the same blend. *)
Theorem decorations_stay_on_segment its fs :
  Forall (fun f => 0 <= f <= 1) fs ->
  fs <> [] ->
  exists d,
    decorationFrames fs (decorationsOf its) = Some d /\
    items d = its /\
    length (children d) = length its /\
    0 <= curF d <= 1 /\
    forall j it, its !! j = Some it ->
      children d !! j = Some (lerpVectors (startPos it) (endPos it) (curF d)).
Proof.
  intros Hfs Hne.
  destruct (decorations_invariant fs (decorationsOf its))
    as (d & Hrun & Hits & Hlen & Hc & Hget).
  - unfold decorationsOf; cbn [children items]. apply length_map.
  - exact Hfs.
  - cbn [decorationsOf curF]. lra.
  - exists d. cbn [decorationsOf items] in Hits, Hlen, Hget.
    repeat split; try assumption; try lra. apply Hget; exact Hne.
Qed.

Lemma decorations_stay_on_segment_witness :
  exists d,
    decorationFrames [1; 0.5]
      (decorationsOf [mkItem (mkVector3 0 0 0) (mkVector3 3 4 5)]) = Some d /\
    items d = [mkItem (mkVector3 0 0 0) (mkVector3 3 4 5)] /\
    length (children d) = length [mkItem (mkVector3 0 0 0) (mkVector3 3 4 5)] /\
    0 <= curF d <= 1 /\
    forall j it, [mkItem (mkVector3 0 0 0) (mkVector3 3 4 5)] !! j = Some it ->
      children d !! j = Some (lerpVectors (startPos it) (endPos it) (curF d)).
Proof.
  apply (decorations_stay_on_segment
           [mkItem (mkVector3 0 0 0) (mkVector3 3 4 5)] [1; 0.5]).
  - repeat constructor; lra.
  - discriminate.
Defined.

(** ** The topper *)

Lemma starFrames_snoc frames fr s :
  starFrames (frames ++ [fr]) s
  = TopStar_useFrame true fr.1 fr.2 (starFrames frames s).
Proof. unfold starFrames; rewrite fold_left_app; reflexivity. Qed.

Lemma star_step f t y :
  Rabs (y + (TREE_HEIGHT / 2 + 0.5 + f * 10 + sin (t * 2) * 0.2 - y) * 0.1
        - (8.5 + 10 * f))
  <= 0.9 * Rabs (y - (8.5 + 10 * f)) + 0.02.
Proof.
  pose proof (SIN_bound (t * 2)) as [Hlo Hhi].
  unfold TREE_HEIGHT.
  replace (y + (16 / 2 + 0.5 + f * 10 + sin (t * 2) * 0.2 - y) * 0.1
           - (8.5 + 10 * f))
    with (0.9 * (y - (8.5 + 10 * f)) + 0.02 * sin (t * 2)) by lra.
  eapply Rle_trans; [apply Rabs_triang|].
  rewrite !Rabs_mult, (Rabs_pos_eq 0.9), (Rabs_pos_eq 0.02) by lra.
  assert (Rabs (sin (t * 2)) <= 1) by (apply Rabs_le; lra).
  lra.
Qed.

(** X10. Under a factor held at [f], whatever the clock reads, the
    topper's height approaches [8.5 + 10 f]: after [n] frames it is
    within [0.9^n] times the initial gap plus 0.2 (the amplitude of its
    idle oscillation), and its yaw is half the clock's last reading. *)
Theorem topper_settles f times s :
  let frames := (fun t => (f, t)) <$> times in
  Rabs (position_y (starFrames frames s) - (8.5 + 10 * f))
  <= 0.9 ^ length times * Rabs (position_y s - (8.5 + 10 * f)) + 0.2 /\
  (forall t, star_rotation_y (starFrames (frames ++ [(f, t)]) s) = t * 0.5).
Proof.
  intros frames. split.
  - subst frames.
    assert (H : Rabs (position_y (starFrames ((fun t => (f, t)) <$> times) s)
                      - (8.5 + 10 * f))
                <= 0.9 ^ length times * Rabs (position_y s - (8.5 + 10 * f))
                   + 0.2 * (1 - 0.9 ^ length times)).
    { induction times as [|t times IH] using rev_ind.
      - simpl. lra.
      - rewrite fmap_app, length_app; cbn [fmap list_fmap length].
        rewrite starFrames_snoc; cbn [fst snd TopStar_useFrame position_y].
        eapply Rle_trans; [apply star_step|].
        rewrite Nat.add_1_r; cbn [pow]. lra. }
    assert (0 <= 0.9 ^ length times) by (apply pow_le; lra).
    lra.
  - intros t. rewrite starFrames_snoc. reflexivity.
Qed.

(** ** The pivot over many frames *)

(** X11. Free spin does not depend on the frame rate: over any run of
    frames without a hand the yaw grows by 0.2 times the total time
    elapsed, however that time is cut into frames. *)
Theorem free_spin_accumulates deltas yaw0 :
  sceneFrames ((fun delta => (None, delta)) <$> deltas) yaw0
  = yaw0 + 0.2 * total deltas.
Proof.
  induction deltas as [|delta deltas IH] using rev_ind.
  - simpl. ring.
  - rewrite fmap_app; cbn [fmap list_fmap].
    rewrite sceneFrames_snoc, IH; cbn [fst snd Scene_useFrame].
    unfold total. rewrite fold_right_app; cbn [fold_right].
    assert (Hsum : forall l a, fold_right Rplus a l = fold_right Rplus 0 l + a).
    { induction l as [|x l IHl]; intros a; simpl; [ring | rewrite IHl; ring]. }
    rewrite (Hsum deltas (delta + 0)). ring.
Qed.

(** ** The overlay *)

Lemma forEachIdx_Some landmarks width height row : forall i,
  Forall (fun idx => (idx < length landmarks)%nat) row ->
  exists ops, forEachIdx landmarks width height i row = Some ops.
Proof.
  induction row as [|idx row IH]; intros i Hrow.
  - eexists; reflexivity.
  - apply Forall_cons in Hrow as [Hidx Hrow].
    destruct (lookup_lt_is_Some_2 landmarks idx Hidx) as [p Hp].
    destruct (IH (S i) Hrow) as [ops Hops].
    cbn [forEachIdx]. rewrite Hp; cbn [mbind option_bind].
    rewrite Hops; cbn [mbind option_bind]. eexists; reflexivity.
Qed.

Lemma forEachIdx_None landmarks width height row : forall i,
  Exists (fun idx => (length landmarks <= idx)%nat) row ->
  forEachIdx landmarks width height i row = None.
Proof.
  induction row as [|idx row IH]; intros i Hrow.
  - apply Exists_nil in Hrow; contradiction.
  - cbn [forEachIdx].
    destruct (landmarks !! idx) as [p|] eqn:Hp; [|reflexivity].
    cbn [mbind option_bind].
    apply Exists_cons in Hrow as [Hidx | Hrow].
    + apply lookup_lt_Some in Hp. lia.
    + rewrite (IH (S i) Hrow). reflexivity.
Qed.

Lemma normalised_inside width height p :
  0 <= width -> 0 <= height -> normalised p ->
  0 <= (1 - lx p) * width <= width /\ 0 <= ly p * height <= height.
Proof. intros Hw Hh [[? ?] [? ?]]. repeat split; nra. Qed.

Lemma forEachIdx_inside landmarks width height row : forall i ops,
  0 <= width -> 0 <= height ->
  Forall normalised landmarks ->
  forEachIdx landmarks width height i row = Some ops ->
  Forall (insideCanvas width height) ops.
Proof.
  induction row as [|idx row IH]; intros i ops Hw Hh Hnorm Hrun.
  - injection Hrun as <-. constructor.
  - cbn [forEachIdx] in Hrun.
    destruct (landmarks !! idx) as [p|] eqn:Hp; [|discriminate].
    cbn [mbind option_bind] in Hrun.
    destruct (forEachIdx landmarks width height (S i) row) as [ops'|] eqn:Hrest;
      [|discriminate].
    cbn [mbind option_bind] in Hrun. injection Hrun as <-.
    constructor; [|apply (IH (S i)); assumption].
    assert (Hn : normalised p).
    { eapply Forall_lookup_1; [exact Hnorm | exact Hp]. }
    pose proof (normalised_inside width height p Hw Hh Hn).
    destruct (i =? 0)%nat; exact H.
Qed.

Lemma drawRow_inside landmarks width height row ops :
  0 <= width -> 0 <= height ->
  Forall normalised landmarks ->
  drawRow landmarks width height row = Some ops ->
  Forall (insideCanvas width height) ops.
Proof.
  intros Hw Hh Hnorm. unfold drawRow.
  destruct (forEachIdx landmarks width height 0 row) as [ops'|] eqn:Hrun;
    [|discriminate].
  cbn [mbind option_bind]. intros [= <-].
  constructor; [exact I|].
  apply Forall_app; split.
  - eapply forEachIdx_inside; eassumption.
  - repeat constructor.
Qed.

Lemma connections_within (landmarks : list Landmark) :
  (21 <= length landmarks)%nat ->
  Forall (Forall (fun idx => (idx < length landmarks)%nat)) connections.
Proof. intros H. unfold connections. repeat constructor; lia. Qed.

Lemma drawSkeleton_rows landmarks width height isOpen :
  drawSkeleton landmarks width height isOpen = None
  <-> (length landmarks < 21)%nat.
Proof.
  unfold drawSkeleton. split.
  - intros Hnone.
    destruct (le_lt_dec 21 (length landmarks)) as [Hge | Hlt]; [|exact Hlt].
    exfalso.
    assert (Hsome : is_Some (mapM (drawRow landmarks width height) connections)).
    { apply mapM_is_Some.
      eapply Forall_impl; [apply connections_within; exact Hge|].
      intros row Hrow. unfold compose, drawRow.
      destruct (forEachIdx_Some landmarks width height row 0 Hrow) as [ops Hops].
      rewrite Hops. eexists; reflexivity. }
    destruct Hsome as [rows Hrows]. rewrite Hrows in Hnone. discriminate.
  - intros Hlt.
    assert (Hnone : mapM (drawRow landmarks width height) connections = None).
    { apply mapM_None. unfold connections.
      do 4 apply Exists_cons_tl. apply Exists_cons_hd.
      unfold drawRow. rewrite forEachIdx_None; [reflexivity|].
      do 4 apply Exists_cons_tl. apply Exists_cons_hd. lia. }
    rewrite Hnone. reflexivity.
Qed.

(** X13. [drawSkeleton] throws exactly on fewer than 21 landmarks.  So
    whenever the finger tests of the hand branch have gone through and
    the state has been published, the drawing that follows in the same
    [try] block cannot throw. *)
Theorem drawSkeleton_throws_iff {M : Binary64} landmarks width height isOpen :
  (drawSkeleton landmarks width height isOpen = None
   <-> (length landmarks < 21)%nat) /\
  (handBranch landmarks <> None ->
   drawSkeleton landmarks width height isOpen <> None).
Proof.
  pose proof (drawSkeleton_rows landmarks width height isOpen) as Hiff.
  split; [exact Hiff|].
  intros Hpub Hdraw. apply Hiff in Hdraw.
  apply Hpub. apply handBranch_short; exact Hdraw.
Qed.

Lemma drawDot_inside width height p :
  0 <= width -> 0 <= height -> normalised p ->
  Forall (insideCanvas width height) (drawDot width height p).
Proof.
  intros Hw Hh Hn. unfold drawDot.
  constructor; [exact I|].
  constructor; [exact (normalised_inside width height p Hw Hh Hn)|].
  constructor; [exact I | constructor].
Qed.

Lemma dot_drawn width height (landmarks : list Landmark) p :
  p ∈ landmarks ->
  arc ((1 - lx p) * width) (ly p * height) 3 0 (2 * PI)
  ∈ concat (drawDot width height <$> landmarks).
Proof.
  induction landmarks as [|q landmarks IH]; intros Hp.
  - apply elem_of_nil in Hp; contradiction.
  - cbn [fmap list_fmap concat]. apply elem_of_app.
    apply elem_of_cons in Hp as [-> | Hp].
    + left. unfold drawDot.
      apply elem_of_cons; right. apply elem_of_cons; left. reflexivity.
    + right. apply IH; exact Hp.
Qed.

(** X14. On a hand of at least 21 landmarks with normalised
    coordinates and a canvas of non-negative size, [drawSkeleton]
    completes, every point it moves to, draws a line to, or centres a
    dot on lies on the canvas, and each landmark gets its dot at the
    horizontally mirrored position [((1 - x) * width, y * height)]. *)
Theorem skeleton_stays_on_canvas landmarks width height isOpen :
  (21 <= length landmarks)%nat ->
  0 <= width -> 0 <= height ->
  Forall normalised landmarks ->
  exists ops,
    drawSkeleton landmarks width height isOpen = Some ops /\
    Forall (insideCanvas width height) ops /\
    (forall p, p ∈ landmarks ->
       arc ((1 - lx p) * width) (ly p * height) 3 0 (2 * PI) ∈ ops).
Proof.
  intros Hlen Hw Hh Hnorm.
  destruct (drawSkeleton landmarks width height isOpen) as [ops|] eqn:Hdraw.
  2:{ apply (proj1 (drawSkeleton_rows landmarks width height isOpen)) in Hdraw. lia. }
  exists ops. split; [reflexivity|].
  unfold drawSkeleton in Hdraw.
  destruct (mapM (drawRow landmarks width height) connections) as [rows|] eqn:Hrows;
    [|discriminate].
  cbn [mbind option_bind] in Hdraw. injection Hdraw as <-.
  split.
  - do 4 (constructor; [exact I|]).
    apply Forall_app; split.
    + apply Forall_concat. apply mapM_Some_1 in Hrows.
      clear Hlen. induction Hrows as [|row rops rows' ropss Hrow _ IH]; constructor.
      * eapply drawRow_inside; eassumption.
      * exact IH.
    + apply Forall_concat, Forall_fmap.
      eapply Forall_impl; [exact Hnorm|].
      intros p Hp. apply drawDot_inside; assumption.
  - intros p Hp.
    do 4 (apply elem_of_cons; right). apply elem_of_app; right.
    apply dot_drawn; exact Hp.
Qed.

Lemma skeleton_stays_on_canvas_witness :
  exists ops,
    drawSkeleton (sampleHand 0 0.5 0.5) 640 480 false = Some ops /\
    Forall (insideCanvas 640 480) ops /\
    (forall p, p ∈ sampleHand 0 0.5 0.5 ->
       arc ((1 - lx p) * 640) (ly p * 480) 3 0 (2 * PI) ∈ ops).
Proof.
  apply (skeleton_stays_on_canvas (sampleHand 0 0.5 0.5) 640 480 false).
  - simpl; lia.
  - lra.
  - lra.
  - unfold sampleHand.
    repeat (apply List.Forall_cons; [unfold normalised; cbn [lx ly]; lra|]).
    apply List.Forall_nil.
Defined.

(** ** The gesture label *)

Lemma handBranch_total {M : Binary64} hand :
  handBranch hand =
    (total ← totalExtended hand;
     wrist ← hand !! 0%nat;
     Some (Publish {| factor := if (4 <=? total)%nat then 1 else 0;
                      rotation := Some (rotationHint (lx wrist)) |})).
Proof.
  unfold handBranch, totalExtended.
  destruct (isFingerExtended hand 8 6); [|reflexivity].
  destruct (isFingerExtended hand 12 10); [|reflexivity].
  destruct (isFingerExtended hand 16 14); [|reflexivity].
  destruct (isFingerExtended hand 20 18); [|reflexivity].
  destruct (isFingerExtended hand 4 2); reflexivity.
Qed.

Lemma displayCycle_displayed {M : Binary64} d refs : displayed d -> displayed (displayCycle d refs).
Proof.
  intros Hd. unfold displayCycle, cycle, predict, predictText, displayed.
  cbn [published interaction gestureText].
  destruct (videoRef refs) as [video|]; [|exact Hd].
  destruct (landmarkerRef refs) as [detect|]; [|exact Hd].
  destruct (canvasRef refs) as [[ctx]|]; [|exact Hd].
  destruct (2 <=? readyState video)%Z; [|exact Hd].
  destruct ((0 <? videoWidth video)%Z && (0 <? videoHeight video)%Z); [|exact Hd].
  destruct detect as [|landmarks]; [exact Hd|].
  unfold tryBlock, tryBlockText; cbn [getContext].
  destruct ctx; [|exact Hd].
  destruct landmarks as [|hand others].
  - right; left. split; reflexivity.
  - change (0 <? length (hand :: others))%nat with true.
    cbn [andb lookup list_lookup mbind option_bind].
    rewrite handBranch_total.
    destruct (totalExtended hand) as [total|]; [|exact Hd].
    cbn [mbind option_bind].
    destruct (hand !! 0%nat) as [wrist|]; [|exact Hd].
    cbn [mbind option_bind applyPublication].
    destruct (4 <=? total)%nat; cbn [factor rotation].
    + right; right; left. repeat split; discriminate.
    + right; right; right. repeat split; discriminate.
Qed.

(** X15. The indicator dot follows the explosion target: after any run
    of inference cycles from the initial page, the dot is green
    ([gestureText] includes "Open") exactly when the published target
    is 1, and the label is "No Hand Detected" or the initial
    "Waiting..." exactly when the published rotation is null. *)
Theorem indicator_follows_target {M : Binary64} run :
  let d := displayCycles initialDisplay run in
  (indicator (gestureText d) = "bg-emerald-400" <-> factor (interaction d) = 1) /\
  (rotation (interaction d) = None
   <-> gestureText d = "No Hand Detected" \/ gestureText d = "Waiting...") /\
  interaction d = cycles initialInteraction run.
Proof.
  intros d. subst d.
  assert (Hinv : displayed (displayCycles initialDisplay run)
                 /\ interaction (displayCycles initialDisplay run)
                    = cycles initialInteraction run).
  { unfold displayCycles, cycles.
    induction run as [|refs run IH] using rev_ind.
    - split; [left; split; reflexivity | reflexivity].
    - rewrite !fold_left_app; cbn [fold_left].
      destruct IH as [IH1 IH2].
      split; [apply displayCycle_displayed; exact IH1|].
      cbn [displayCycle interaction]. rewrite IH2. reflexivity. }
  destruct Hinv as [Hd Hsame]. split; [|split; [|exact Hsame]].
  - destruct Hd as [[Ht Hs] | [[Ht Hs] | [(Ht & Hf & _) | (Ht & Hf & _)]]];
      rewrite Ht, ?Hs, ?Hf; unfold indicator; cbn;
      split; intros H; try discriminate; try reflexivity; lra.
  - destruct Hd as [[Ht Hs] | [[Ht Hs] | [(Ht & _ & Hr) | (Ht & _ & Hr)]]];
      rewrite Ht, ?Hs; cbn [rotation initialInteraction].
    + split; [right; reflexivity | reflexivity].
    + split; [left; reflexivity | reflexivity].
    + split; [contradiction | intros [H | H]; discriminate].
    + split; [contradiction | intros [H | H]; discriminate].
Qed.

(** ** Building the formations *)

Lemma length_write3 a k x y z : length (write3 a k x y z) = length a.
Proof. unfold write3; rewrite !length_insert; reflexivity. Qed.

Lemma entity_write3 a k x y z i :
  (k * 3 + 2 < length a)%nat ->
  entity (write3 a k x y z) i
  = if decide (i = k) then {| vx := x; vy := y; vz := z |} else entity a i.
Proof.
  intros Hk. unfold entity, write3.
  rewrite !idx_insert, !length_insert.
  destruct (decide (i = k)) as [-> | Hne].
  - repeat case_decide; try lia; reflexivity.
  - repeat case_decide; try lia; reflexivity.
Qed.

Lemma polar_norm r theta :
  (r * cos theta) * (r * cos theta) + (r * sin theta) * (r * sin theta) = r * r.
Proof.
  pose proof (sin2_cos2 theta) as H. unfold Rsqr in H.
  replace (r * cos theta * (r * cos theta) + r * sin theta * (r * sin theta))
    with (r * r * (sin theta * sin theta + cos theta * cos theta)) by ring.
  rewrite H. ring.
Qed.

Lemma spherical_norm r phi theta :
  (r * sin phi * cos theta) * (r * sin phi * cos theta)
  + (r * sin phi * sin theta) * (r * sin phi * sin theta)
  + (r * cos phi) * (r * cos phi) = r * r.
Proof.
  pose proof (sin2_cos2 theta) as H1. pose proof (sin2_cos2 phi) as H2.
  unfold Rsqr in H1, H2.
  replace (r * sin phi * cos theta * (r * sin phi * cos theta)
           + r * sin phi * sin theta * (r * sin phi * sin theta)
           + r * cos phi * (r * cos phi))
    with (r * r * (sin phi * sin phi
                   * (sin theta * sin theta + cos theta * cos theta)
                   + cos phi * cos phi)) by ring.
  rewrite H1, Rmult_1_r, H2. ring.
Qed.

Lemma Math_pow_unit u e : 0 <= u < 1 -> 0 < e -> 0 <= Math_pow u e < 1.
Proof.
  intros [Hu0 Hu1] He. unfold Math_pow.
  destruct (Req_dec_T u 0) as [_ | Hne]; [lra|].
  unfold Rpower. split; [left; apply exp_pos|].
  rewrite <- exp_0. apply exp_increasing.
  assert (ln u < 0) by (rewrite <- ln_1; apply ln_increasing; lra).
  nra.
Qed.

Lemma inTree_farOut_differ v w : inTree v -> farOut w -> v <> w.
Proof.
  intros [Hr [Hy1 Hy2]] Hf ->. unfold farOut in Hf. nra.
Qed.

Lemma div_unit a c : 0 <= a < c -> 0 <= a / c < 1.
Proof.
  intros [Ha Hc].
  assert (Hinv : 0 < / c) by (apply Rinv_0_lt_compat; lra).
  assert (Hone : c * / c = 1) by (field; lra).
  unfold Rdiv. split; nra.
Qed.

Section Built.
Variable random : nat -> R.
Variable Color : option string -> R * R * R.
Hypothesis random_unit : forall n, 0 <= random n < 1.

Lemma leaf_keeps total k b :
  (k < total)%nat -> BuildInv total k b ->
  BuildInv total (S k) (leaf random Color b).
Proof.
  intros Hk (Hidx & Hl1 & Hl2 & Hl3 & Hl4 & Hall).
  unfold BuildInv, leaf; cbn [idx_ posInit posExp col siz].
  rewrite !length_write3, length_insert, Hidx.
  split; [reflexivity|]. do 4 (split; [assumption|]).
  intros i Hi.
  rewrite !entity_write3 by lia. rewrite idx_insert.
  destruct (decide (i = k)) as [-> | Hne];
    [|rewrite decide_False by (intros [? _]; lia); apply Hall; lia].
  split; [|split].
  - (* the rest position of the new leaf *)
    pose proof (random_unit (calls b)) as Hy.
    pose proof (Math_pow_unit (random (calls b + 1)) 0.3
                  (random_unit _) ltac:(lra)) as Hp.
    unfold inTree, TREE_HEIGHT, TREE_RADIUS; cbn [vx vy vz].
    rewrite polar_norm.
    set (y := random (calls b)) in *.
    set (p := Math_pow _ _) in *.
    split; [|lra].
    replace (7 * (1 - y * 16 / 16)) with (7 * (1 - y)) by field.
    assert (0 <= p * (7 * (1 - y)) <= 7) by (split; nra).
    nra.
  - (* its exploded position *)
    pose proof (randomRange_unit (random (calls b + 3)) 20 50
                  (random_unit _) ltac:(lra)) as He.
    unfold farOut; cbn [vx vy vz]. rewrite spherical_norm. nra.
  - (* its size *)
    rewrite decide_True by (split; [reflexivity | lia]).
    pose proof (randomRange_unit (random (calls b + 7)) 0.25 0.45
                  (random_unit _) ltac:(lra)). lra.
Qed.
Lemma ribbon_keeps total k b i :
  (k < total)%nat -> (i < COUNT_RIBBON)%nat -> BuildInv total k b ->
  BuildInv total (S k) (ribbon random Color b i).
Proof.
  intros Hk Hi (Hidx & Hl1 & Hl2 & Hl3 & Hl4 & Hall).
  unfold BuildInv, ribbon; cbn [idx_ posInit posExp col siz].
  rewrite !length_write3, length_insert, Hidx.
  split; [reflexivity|]. do 4 (split; [assumption|]).
  intros j Hj.
  rewrite !entity_write3 by lia. rewrite idx_insert.
  destruct (decide (j = k)) as [-> | Hne];
    [|rewrite decide_False by (intros [? _]; lia); apply Hall; lia].
  assert (Ht : 0 <= INR i / INR COUNT_RIBBON < 1).
  { pose proof (pos_INR i). pose proof (lt_INR _ _ Hi).
    apply div_unit; lra. }
  set (t := INR i / INR COUNT_RIBBON) in *.
  split; [|split].
  - unfold inTree, TREE_HEIGHT, TREE_RADIUS; cbn [vx vy vz].
    rewrite polar_norm.
    replace (7 * (1 - t * 16 / 16) + 0.3) with (7.3 - 7 * t) by lra.
    split; nra.
  - pose proof (randomRange_unit (random (calls b)) 25 45
                  (random_unit _) ltac:(lra)) as He.
    unfold farOut; cbn [vx vy vz].
    pose proof (polar_norm (randomRange (random (calls b)) 25 45)
                  (t * PI * 2 * SPIRALS)) as Hn.
    nra.
  - rewrite decide_True by (split; [reflexivity | lia]). lra.
Qed.

Lemma leaves_keep total n : forall s k b,
  (k + n <= total)%nat -> BuildInv total k b ->
  BuildInv total (k + n)
    (fold_left (fun b _ => leaf random Color b) (seq s n) b).
Proof.
  induction n as [|n IH]; intros s k b Hk Hb.
  - rewrite Nat.add_0_r. exact Hb.
  - cbn [seq fold_left].
    replace (k + S n)%nat with (S k + n)%nat by lia.
    apply IH; [lia|]. apply leaf_keeps; [lia | exact Hb].
Qed.

Lemma ribbons_keep total n : forall s k b,
  (k + n <= total)%nat -> (s + n <= COUNT_RIBBON)%nat -> BuildInv total k b ->
  BuildInv total (k + n) (fold_left (ribbon random Color) (seq s n) b).
Proof.
  induction n as [|n IH]; intros s k b Hk Hs Hb.
  - rewrite Nat.add_0_r. exact Hb.
  - cbn [seq fold_left].
    replace (k + S n)%nat with (S k + n)%nat by lia.
    apply IH; [lia | lia |]. apply ribbon_keeps; [lia | lia | exact Hb].
Qed.

Lemma buildWith_inv leaves ribbons :
  (ribbons <= COUNT_RIBBON)%nat ->
  BuildInv (leaves + ribbons) (leaves + ribbons)
    (buildWith random Color leaves ribbons).
Proof.
  intros Hr. unfold buildWith; cbv zeta.
  apply ribbons_keep; [lia | lia |].
  apply (leaves_keep (leaves + ribbons) leaves 0 0); [lia|].
  unfold BuildInv; cbn [idx_ posInit posExp col siz].
  rewrite !length_replicate. repeat split; try reflexivity; lia.
Qed.
End Built.

Section BuiltLengths.
Variable random : nat -> R.
Variable Color : option string -> R * R * R.

Lemma leaves_count total n : forall s b,
  length (posInit b) = total -> length (posExp b) = total ->
  length (col b) = total ->
  let b' := fold_left (fun b _ => leaf random Color b) (seq s n) b in
  length (posInit b') = total /\ length (posExp b') = total /\
  length (col b') = total /\ length (siz b') = length (siz b) /\
  idx_ b' = (idx_ b + n)%nat /\ calls b' = (calls b + 8 * n)%nat.
Proof.
  induction n as [|n IH]; intros s b H1 H2 H3; cbv zeta.
  - cbn [seq fold_left]. repeat split; try assumption; lia.
  - cbn [seq fold_left].
    destruct (IH (S s) (leaf random Color b)) as (? & ? & ? & Hs & Hi & Hc);
      try (unfold leaf; cbn [posInit posExp col]; rewrite length_write3; assumption).
    assert (Es : length (siz (leaf random Color b)) = length (siz b))
      by (unfold leaf; cbn [siz]; apply length_insert).
    assert (Ei : idx_ (leaf random Color b) = S (idx_ b)) by reflexivity.
    assert (Ec : calls (leaf random Color b) = (calls b + 8)%nat) by reflexivity.
    rewrite Es in Hs. rewrite Ei in Hi. rewrite Ec in Hc.
    repeat split; try assumption; lia.
Qed.

Lemma ribbons_count total n : forall s b,
  length (posInit b) = total -> length (posExp b) = total ->
  length (col b) = total ->
  let b' := fold_left (ribbon random Color) (seq s n) b in
  length (posInit b') = total /\ length (posExp b') = total /\
  length (col b') = total /\ length (siz b') = length (siz b) /\
  idx_ b' = (idx_ b + n)%nat /\ calls b' = (calls b + n)%nat.
Proof.
  induction n as [|n IH]; intros s b H1 H2 H3; cbv zeta.
  - cbn [seq fold_left]. repeat split; try assumption; lia.
  - cbn [seq fold_left].
    destruct (IH (S s) (ribbon random Color b s)) as (? & ? & ? & Hs & Hi & Hc);
      try (unfold ribbon; cbn [posInit posExp col]; rewrite length_write3; assumption).
    assert (Es : length (siz (ribbon random Color b s)) = length (siz b))
      by (unfold ribbon; cbn [siz]; apply length_insert).
    assert (Ei : idx_ (ribbon random Color b s) = S (idx_ b)) by reflexivity.
    assert (Ec : calls (ribbon random Color b s) = (calls b + 1)%nat) by reflexivity.
    rewrite Es in Hs. rewrite Ei in Hi. rewrite Ec in Hc.
    repeat split; try assumption; lia.
Qed.

Lemma buildWith_count leaves ribbons :
  let b := buildWith random Color leaves ribbons in
  length (posInit b) = ((leaves + ribbons) * 3)%nat /\
  length (posExp b) = ((leaves + ribbons) * 3)%nat /\
  length (col b) = ((leaves + ribbons) * 3)%nat /\
  length (siz b) = (leaves + ribbons)%nat /\
  idx_ b = (leaves + ribbons)%nat /\
  calls b = (8 * leaves + ribbons)%nat.
Proof.
  cbv zeta. unfold buildWith; cbv zeta.
  set (b0 := {| posInit := _ |}).
  pose proof (leaves_count ((leaves + ribbons) * 3) leaves 0 b0) as H1.
  cbv zeta in H1.
  destruct H1 as (L1 & L2 & L3 & L4 & L5 & L6);
    try (subst b0; cbn [posInit posExp col]; apply length_replicate).
  set (b1 := fold_left _ (seq 0 leaves) b0) in *.
  pose proof (ribbons_count ((leaves + ribbons) * 3) ribbons 0 b1 L1 L2 L3) as H2.
  cbv zeta in H2.
  destruct H2 as (R1 & R2 & R3 & R4 & R5 & R6).
  rewrite R4, R5, R6, L4, L5, L6.
  subst b0; cbn [siz idx_ calls]. rewrite length_replicate.
  repeat split; try assumption; lia.
Qed.
End BuiltLengths.

(** X16. Whatever [Math.random] returns, the [useMemo] of
    [TreeParticles] fills buffers of the lengths it allocated: three
    cells per entity for the initial, exploded and colour buffers, one
    per entity for the sizes, with equal lengths for the three position
    buffers of the cloud; it writes [COUNT_LEAVES + COUNT_RIBBON]
    entities and calls [Math.random] eight times per leaf and once per
    ribbon point. *)
Theorem built_cloud_is_well_formed random Color :
  let b := buildWith random Color COUNT_LEAVES COUNT_RIBBON in
  let p := builtParticles random Color in
  wellFormed p /\
  length (currentPositions p) = ((COUNT_LEAVES + COUNT_RIBBON) * 3)%nat /\
  length (col b) = ((COUNT_LEAVES + COUNT_RIBBON) * 3)%nat /\
  length (builtSizes random Color) = (COUNT_LEAVES + COUNT_RIBBON)%nat /\
  idx_ b = (COUNT_LEAVES + COUNT_RIBBON)%nat /\
  calls b = (8 * COUNT_LEAVES + COUNT_RIBBON)%nat.
Proof.
  cbv zeta.
  pose proof (buildWith_count random Color COUNT_LEAVES COUNT_RIBBON) as H.
  cbv zeta in H. destruct H as (H1 & H2 & H3 & H4 & H5 & H6).
  unfold wellFormed, builtParticles, builtSizes;
    cbn [initialPositions explodedPositions currentPositions].
  rewrite H1, H2.
  split; [split; reflexivity|]. split; [reflexivity|].
  split; [exact H3|]. split; [exact H4|]. split; [exact H5 | exact H6].
Qed.

(** X17. With [Math.random] in [[0, 1)], every entity the [useMemo]
    of [TreeParticles] builds rests around the tree, within 7.4 of its
    axis and within 8.1 of its mid height, explodes to a point at least
    19.9 from the centre, and has a size between 0.24 and 0.51 (the
    values computed are within 7.3, 8, 20 and 0.25 to 0.5; the margin
    covers their rounding to binary32 in the buffers).  So the rest and
    exploded positions of every particle differ, its current position
    starts as its rest position, and its cells lie within the
    buffers. *)
Theorem built_cloud_geometry random Color i :
  (forall n, 0 <= random n < 1) ->
  (i < COUNT_LEAVES + COUNT_RIBBON)%nat ->
  let p := builtParticles random Color in
  aroundTree (entity (initialPositions p) i) /\
  wellOut (entity (explodedPositions p) i) /\
  0.24 <= idx (builtSizes random Color) i <= 0.51 /\
  entity (initialPositions p) i <> entity (explodedPositions p) i /\
  currentPositions p = initialPositions p /\
  length (initialPositions p) = length (explodedPositions p) /\
  (i * 3 + 2 < length (initialPositions p))%nat.
Proof.
  intros Hrand Hi p. subst p.
  destruct (buildWith_inv random Color Hrand COUNT_LEAVES COUNT_RIBBON)
    as (_ & Hl1 & Hl2 & _ & _ & Hall); [lia|].
  destruct (Hall i Hi) as (Hrest & Hexp & Hsize).
  unfold builtParticles, builtSizes;
    cbn [initialPositions explodedPositions currentPositions].
  split; [destruct Hrest as [Hr Hy]; split; lra|].
  split; [unfold farOut in Hexp; unfold wellOut; lra|].
  split; [lra|].
  split; [apply inTree_farOut_differ; [exact Hrest | exact Hexp]|].
  split; [reflexivity|]. split.
  - rewrite Hl1, Hl2. reflexivity.
  - rewrite Hl1. lia.
Qed.

Lemma built_cloud_geometry_witness :
  aroundTree (entity (initialPositions
                        (builtParticles (fun _ => 0.5) (fun _ => (1, 1, 1)))) 0) /\
  wellOut (entity (explodedPositions
                     (builtParticles (fun _ => 0.5) (fun _ => (1, 1, 1)))) 0).
Proof.
  destruct (built_cloud_geometry (fun _ => 0.5) (fun _ => (1, 1, 1)) 0)
    as (H1 & H2 & _).
  - intros _; lra.
  - unfold COUNT_RIBBON; lia.
  - split; [exact H1 | exact H2].
Defined.

(** ** Building the decorations *)





(** ** Starting the tracker and its prediction loop *)

(** The loop has not started, or exactly the callback [reqIdRef] names
    is pending. *)
Lemma loop_invariant events :
  let l := loopRun events in
  (0 < nextHandle l)%Z /\
  ((reqIdRef l = 0%Z /\ scheduled l = [] /\ CanPlay true ∉ events) \/
   (scheduled l = [reqIdRef l] /\ (0 < reqIdRef l < nextHandle l)%Z
    /\ CanPlay true ∈ events)).
Proof.
  cbv zeta. unfold loopRun.
  induction events as [|e events IH] using rev_ind.
  - cbn. split; [lia|]. left. repeat split. apply not_elem_of_nil.
  - rewrite fold_left_app; cbn [fold_left].
    set (l := fold_left loopStep events initialLoop) in *.
    destruct IH as [Hnext [(Hid & Hsch & Hnot) | (Hsch & Hid & Hin)]].
    + destruct e as [[|]|]; cbn [loopStep onCanPlay].
      * rewrite Hid; cbn [Z.eqb]. unfold requestPredict; cbn.
        rewrite Hsch; cbn [app]. split; [lia|]. right.
        split; [reflexivity|]. split; [lia|].
        apply elem_of_app; right. apply list_elem_of_singleton. reflexivity.
      * split; [exact Hnext|]. left. repeat split; try assumption.
        intros Hin. apply elem_of_app in Hin as [Hin | Hin]; [contradiction|].
        apply list_elem_of_singleton in Hin. discriminate.
      * unfold animationFrame. rewrite Hsch; cbn [fold_left].
        cbn [reqIdRef scheduled nextHandle]. split; [exact Hnext|].
        left. repeat split; try assumption.
        intros Hin. apply elem_of_app in Hin as [Hin | Hin]; [contradiction|].
        apply list_elem_of_singleton in Hin. discriminate.
    + assert (Hin' : CanPlay true ∈ events ++ [e])
        by (apply elem_of_app; left; exact Hin).
      destruct e as [[|]|]; cbn [loopStep onCanPlay].
      * destruct (reqIdRef l =? 0)%Z eqn:Hz; [apply Z.eqb_eq in Hz; lia|].
        split; [exact Hnext|]. right. repeat split; try assumption; lia.
      * split; [exact Hnext|]. right. repeat split; try assumption; lia.
      * unfold animationFrame. rewrite Hsch; cbn [fold_left].
        unfold requestPredict; cbn [reqIdRef scheduled nextHandle app].
        split; [lia|]. right. repeat split; try assumption; lia.
Qed.

(** X19. However often the video reports that it can play and however
    many animation frames pass, the prediction loop runs at most once
    at a time: no callback is pending before the first [canplay] with a
    video element, and from then on exactly one is, the one [reqIdRef]
    names, so a later [canplay] starts no second loop and the loop
    never stops. *)
Theorem one_prediction_loop events :
  let l := loopRun events in
  (length (scheduled l) <= 1)%nat /\
  (CanPlay true ∈ events -> scheduled l = [reqIdRef l] /\ reqIdRef l <> 0%Z) /\
  (CanPlay true ∉ events -> scheduled l = [] /\ reqIdRef l = 0%Z).
Proof.
  cbv zeta.
  destruct (loop_invariant events) as [_ [(Hid & Hsch & Hnot) | (Hsch & Hid & Hin)]].
  - rewrite Hsch. split; [simpl; lia|]. split.
    + intros Hin; contradiction.
    + intros _; split; [reflexivity | exact Hid].
  - rewrite Hsch. split; [simpl; lia|]. split.
    + intros _; split; [reflexivity | lia].
    + intros Hnot; contradiction.
Qed.

Lemma one_prediction_loop_witness :
  scheduled (loopRun [CanPlay true; Frame; CanPlay true; Frame])
  = [reqIdRef (loopRun [CanPlay true; Frame; CanPlay true; Frame])] /\
  reqIdRef (loopRun [CanPlay true; Frame; CanPlay true; Frame]) <> 0%Z.
Proof.
  apply (proj1 (proj2 (one_prediction_loop
                         [CanPlay true; Frame; CanPlay true; Frame]))).
  apply elem_of_cons; left; reflexivity.
Defined.

Lemma tracker_invariant events :
  let t := trackerRun events in
  modelLoaded t = landmarkerLoaded t /\
  (isCameraActive t = true -> landmarkerLoaded t = true) /\
  (InitEnded true ∉ events -> landmarkerLoaded t = false) /\
  (status t = "Active" -> landmarkerLoaded t = true).
Proof.
  cbv zeta. unfold trackerRun.
  induction events as [|e events IH] using rev_ind.
  - cbn. repeat split; try reflexivity; discriminate.
  - rewrite fold_left_app; cbn [fold_left].
    set (t := fold_left trackerStep events initialTracker) in *.
    destruct IH as (Hm & Hc & Hn & Hs).
    assert (Hn' : InitEnded true ∉ events ++ [e] -> landmarkerLoaded t = false).
    { intros H. apply Hn. intros Hin. apply H. apply elem_of_app; left; exact Hin. }
    destruct e as [[|]| | |[|]|]; cbn [trackerStep].
    + destruct (isMounted t);
        cbn [modelLoaded landmarkerLoaded isCameraActive status];
        [|repeat split; auto].
      split; [reflexivity|]. split; [reflexivity|]. split; [|reflexivity].
      intros H. exfalso. apply H. apply elem_of_app; right.
      apply list_elem_of_singleton. reflexivity.
    + destruct (isMounted t);
        cbn [modelLoaded landmarkerLoaded isCameraActive status];
        [|repeat split; auto].
      split; [exact Hm|]. split; [exact Hc|]. split; [exact Hn'|].
      discriminate.
    + cbn [modelLoaded landmarkerLoaded isCameraActive status].
      repeat split; auto.
    + destruct (landmarkerLoaded t) eqn:Hl; cbn [negb];
        [|rewrite ?Hl; repeat split; auto].
      cbn [modelLoaded landmarkerLoaded isCameraActive status].
      split; [exact Hm|]. split; [reflexivity|]. split; [exact Hn'|].
      reflexivity.
    + repeat split; auto.
    + cbn [modelLoaded landmarkerLoaded isCameraActive status].
      split; [exact Hm|]. split; [discriminate|]. split; [exact Hn'|].
      discriminate.
    + destruct (isCameraActive t) eqn:Ha;
        [|rewrite ?Ha; repeat split; auto].
      cbn [modelLoaded landmarkerLoaded isCameraActive status].
      split; [exact Hm|]. split; [exact Hc|]. split; [exact Hn'|].
      intros _. apply Hc. reflexivity.
Qed.

(** X20. Whatever the order in which [init] ends, the button is
    clicked, [getUserMedia] ends and the video can play: the camera is
    never active and the status never "Active" unless the landmarker
    has been loaded, [modelLoaded] says exactly whether it has, and if
    [init] never ends well (the model fails to load, or the component
    is unmounted first) the landmarker stays unset and a click on the
    button does nothing. *)
Theorem camera_needs_model events :
  let t := trackerRun events in
  modelLoaded t = landmarkerLoaded t /\
  (isCameraActive t = true -> landmarkerLoaded t = true) /\
  (status t = "Active" -> landmarkerLoaded t = true) /\
  (InitEnded true ∉ events ->
   landmarkerLoaded t = false /\ isCameraActive t = false /\
   trackerStep t StartClicked = t).
Proof.
  cbv zeta.
  destruct (tracker_invariant events) as (Hm & Hc & Hn & Hs).
  split; [exact Hm|]. split; [exact Hc|]. split; [exact Hs|].
  intros Hnot. specialize (Hn Hnot).
  split; [exact Hn|]. split.
  - destruct (isCameraActive (trackerRun events)); [|reflexivity].
    rewrite Hc in Hn by reflexivity. discriminate.
  - cbn [trackerStep]. rewrite Hn. reflexivity.
Qed.

Lemma camera_needs_model_witness :
  landmarkerLoaded (trackerRun [InitEnded false; StartClicked; VideoCanPlay]) = false /\
  isCameraActive (trackerRun [InitEnded false; StartClicked; VideoCanPlay]) = false /\
  trackerStep (trackerRun [InitEnded false; StartClicked; VideoCanPlay]) StartClicked
  = trackerRun [InitEnded false; StartClicked; VideoCanPlay].
Proof.
  apply (proj2 (proj2 (proj2 (camera_needs_model
                                [InitEnded false; StartClicked; VideoCanPlay])))).
  intros H.
  repeat (apply elem_of_cons in H as [H | H]; [discriminate|]).
  apply elem_of_nil in H. exact H.
Defined.

(** ** The colours of the cloud *)

Lemma palette_index u :
  0 <= u < 1 ->
  (Math_floor (u * INR (length LEAF_COLORS)) < length LEAF_COLORS)%nat.
Proof.
  intros [H0 H1]. unfold Math_floor, LEAF_COLORS; cbn [length INR].
  replace (1 + 1 + 1 + 1 + 1 + 1) with 6 by lra.
  pose proof (Zfloor_bound (u * 6)) as [Hlo Hhi].
  assert (Hz : (Zfloor (u * 6) < 6)%Z).
  { apply lt_IZR. lra. }
  lia.
Qed.

Section Colours.
Variable random : nat -> R.
Variable Color : option string -> R * R * R.
Hypothesis random_unit : forall n, 0 <= random n < 1.

Lemma leaf_colours total leaves k b :
  (k < total)%nat -> (k < leaves)%nat -> ColourInv Color total leaves k b ->
  ColourInv Color total leaves (S k) (leaf random Color b).
Proof.
  intros Hk Hleaf (Hidx & Hlen & Hall).
  unfold ColourInv, leaf; cbn [idx_ col].
  rewrite length_write3, Hidx.
  split; [reflexivity|]. split; [exact Hlen|].
  intros i Hi. rewrite entity_write3 by lia.
  destruct (decide (i = k)) as [-> | Hne]; [|apply Hall; lia].
  split; [|intros; lia].
  intros _.
  destruct (lookup_lt_is_Some_2 LEAF_COLORS _
              (palette_index (random (calls b + 6)) (random_unit _))) as [c Hc].
  exists c. split; [eapply list_elem_of_lookup_2; exact Hc|].
  rewrite Hc. reflexivity.
Qed.

Lemma ribbon_colours total leaves k b i :
  (k < total)%nat -> (leaves <= k)%nat -> ColourInv Color total leaves k b ->
  ColourInv Color total leaves (S k) (ribbon random Color b i).
Proof.
  intros Hk Hleaf (Hidx & Hlen & Hall).
  unfold ColourInv, ribbon; cbn [idx_ col].
  rewrite length_write3, Hidx.
  split; [reflexivity|]. split; [exact Hlen|].
  intros j Hj. rewrite entity_write3 by lia.
  destruct (decide (j = k)) as [-> | Hne]; [|apply Hall; lia].
  split; [intros; lia | intros _; reflexivity].
Qed.

Lemma leaves_colours total leaves n : forall s k b,
  (k + n <= total)%nat -> (k + n <= leaves)%nat ->
  ColourInv Color total leaves k b ->
  ColourInv Color total leaves (k + n)
    (fold_left (fun b _ => leaf random Color b) (seq s n) b).
Proof.
  induction n as [|n IH]; intros s k b Hk Hl Hb.
  - rewrite Nat.add_0_r. exact Hb.
  - cbn [seq fold_left].
    replace (k + S n)%nat with (S k + n)%nat by lia.
    apply IH; [lia | lia |]. apply leaf_colours; [lia | lia | exact Hb].
Qed.

Lemma ribbons_colours total leaves n : forall s k b,
  (k + n <= total)%nat -> (leaves <= k)%nat ->
  ColourInv Color total leaves k b ->
  ColourInv Color total leaves (k + n)
    (fold_left (ribbon random Color) (seq s n) b).
Proof.
  induction n as [|n IH]; intros s k b Hk Hl Hb.
  - rewrite Nat.add_0_r. exact Hb.
  - cbn [seq fold_left].
    replace (k + S n)%nat with (S k + n)%nat by lia.
    apply IH; [lia | lia |]. apply ribbon_colours; [lia | lia | exact Hb].
Qed.

Lemma buildWith_colours leaves ribbons :
  ColourInv Color (leaves + ribbons) leaves (leaves + ribbons)
    (buildWith random Color leaves ribbons).
Proof.
  unfold buildWith; cbv zeta.
  apply ribbons_colours; [lia | lia |].
  apply (leaves_colours (leaves + ribbons) leaves leaves 0 0); [lia | lia |].
  unfold ColourInv; cbn [idx_ col].
  rewrite length_replicate. repeat split; try reflexivity; lia.
Qed.
End Colours.

(** X21. With [Math.random] in [[0, 1)], every leaf of the cloud gets
    one of the six colours of [LEAF_COLORS]: the index
    [Math.floor(Math.random() * 6)] never falls outside the palette.
    Every ribbon point gets three times the ribbon colour. *)
Theorem built_cloud_colours random Color i :
  (forall n, 0 <= random n < 1) ->
  (i < COUNT_LEAVES + COUNT_RIBBON)%nat ->
  let b := buildWith random Color COUNT_LEAVES COUNT_RIBBON in
  ((i < COUNT_LEAVES)%nat ->
   exists c, c ∈ LEAF_COLORS /\ entity (col b) i = rgb (Color (Some c))) /\
  ((COUNT_LEAVES <= i)%nat ->
   entity (col b) i
   = {| vx := (Color (Some RIBBON_COLOR_HEX)).1.1 * 3;
        vy := (Color (Some RIBBON_COLOR_HEX)).1.2 * 3;
        vz := (Color (Some RIBBON_COLOR_HEX)).2 * 3 |}).
Proof.
  intros Hrand Hi b. subst b.
  destruct (buildWith_colours random Color Hrand COUNT_LEAVES COUNT_RIBBON)
    as (_ & _ & Hall).
  exact (Hall i Hi).
Qed.

Lemma built_cloud_colours_witness :
  exists c,
    c ∈ LEAF_COLORS /\
    entity (col (buildWith (fun _ => 0.5) (fun _ => (1, 1, 1))
                   COUNT_LEAVES COUNT_RIBBON)) 0
    = rgb ((fun _ => (1, 1, 1)) (Some c)).
Proof.
  destruct (built_cloud_colours (fun _ => 0.5) (fun _ => (1, 1, 1)) 0)
    as [Hleaf _].
  - intros _; lra.
  - unfold COUNT_RIBBON; lia.
  - apply Hleaf. apply Nat.ltb_lt. vm_compute. reflexivity.
Defined.
